(** * hexo-algoliasearch: the indexing pipeline of [src/algolia.js]

    A shallow embedding of the exported helpers ([pick], [upperFirst],
    [splitIntoChunks], [prepareContents], [getBasicFields],
    [getFieldsWithFilters]), of the filter table [FILTER_FUNCTIONS] and of the
    command [algoliaCommand], followed by the properties the specification
    states about them.

    JavaScript objects are finite maps from property names to values, arrays
    are lists, exceptions are the left summand of [result], and everything the
    program does to the outside (log lines, calls of the Algolia client, the
    callback) is recorded, in order, in a list of events. *)

From stdpp Require Import gmap strings list fin_maps.
From Stdlib Require Import ZArith Ascii String.

Local Open Scope Z_scope.
Local Open Scope string_scope.
Local Open Scope list_scope.

(** ** Values *)

(** The values content records are made of.  Numbers are the integral ones;
    there are no function values, so a property that holds data is never
    callable. *)
#[warnings="-register-all"]
Inductive val : Type :=
| VUndefined
| VNull
| VBool (b : bool)
| VNumber (n : Z)
| VString (s : string)
| VArray (xs : list val)
| VObject (o : gmap string val).

(** What a [throw] carries: the engine's own [TypeError], or a value raised by
    a collaborator (the host, the Algolia client, a filter). *)
Inductive exn : Type :=
| TypeError
| Thrown (what : string).

Inductive result (A : Type) : Type :=
| Ok (a : A)
| Err (e : exn).
Arguments Ok {A} a.
Arguments Err {A} e.

(** [o.hasOwnProperty(k)] and [o[k]] on an object given by its own data
    properties: the prototype carries none of the names looked up on
    records, and a record does not shadow [hasOwnProperty].  Keys are names
    of data properties; the one name that is not, [__proto__] (reading it
    gives the prototype, assigning to it replaces the prototype and creates
    no own property), is outside this picture of an object, and the
    properties below that depend on a store under a given key exclude it. *)
Definition hasOwnProperty (o : gmap string val) (k : string) : bool :=
  bool_decide (is_Some (o !! k)).

Definition get (o : gmap string val) (k : string) : val :=
  default VUndefined (o !! k).

(** ** Strings *)

(** [s.split(sep)] for a one-character separator: the pieces between the
    occurrences of [sep], empty pieces included; never the empty array. *)
Fixpoint split (sep : ascii) (s : string) : list string :=
  match s with
  | EmptyString => [EmptyString]
  | String c rest =>
      if Ascii.eqb c sep then EmptyString :: split sep rest
      else match split sep rest with
           | piece :: pieces => String c piece :: pieces
           | [] => [String c EmptyString]
           end
  end.

(** [/:/.test(field)] *)
Fixpoint hasColon (field : string) : bool :=
  match field with
  | EmptyString => false
  | String c rest => Ascii.eqb c ":" || hasColon rest
  end.

(** [c.toUpperCase()] on one character: the letters a-z move to A-Z.  (Names
    that reach a stored key are names of the filter table, all ASCII.) *)
Definition toUpperCase (c : ascii) : ascii :=
  let n := nat_of_ascii c in
  if (97 <=? n)%nat && (n <=? 122)%nat then ascii_of_nat (n - 32) else c.

(** [string.charAt(0).toUpperCase() + string.slice(1)] *)
Definition upperFirst (str : string) : string :=
  match str with
  | EmptyString => EmptyString
  | String c rest => String (toUpperCase c) rest
  end.

(** [parts.join('')] *)
Definition join (parts : list string) : string :=
  foldr String.append EmptyString parts.

(** ** The Batcher: [splitIntoChunks] *)

Section Batcher.
Context {A : Type}.

(** [array.splice(0, deleteCount)] on the array's contents: the removed
    elements and what is left.  A negative count removes nothing, a count
    past the end removes everything. *)
Definition splice0 (array : list A) (deleteCount : Z) : list A * list A :=
  (take (Z.to_nat deleteCount) array, drop (Z.to_nat deleteCount) array).

(** The [while (newArrays.length)] loop, [chunks] and [newArrays] threaded
    through it; [None] when [fuel] iterations did not empty [newArrays]. *)
Fixpoint chunkLoop (fuel : nat) (newArrays : list A) (chunks : list (list A))
    (chunkSize : Z) {struct fuel} : option (list (list A)) :=
  match newArrays with
  | [] => Some chunks
  | _ :: _ =>
      match fuel with
      | O => None
      | S fuel' =>
          let '(removed, rest) := splice0 newArrays chunkSize in
          chunkLoop fuel' rest (chunks ++ [removed]) chunkSize
      end
  end.

Definition splitIntoChunks (fuel : nat) (array : list A) (chunkSize : Z)
    : option (list (list A)) :=
  let newArrays := array in
  let chunks := [] in
  chunkLoop fuel newArrays chunks chunkSize.

(** Every chunk but the last has exactly [k] elements. *)
Definition full_but_last (k : Z) (chunks : list (list A)) : Prop :=
  forall (i : nat) (c : list A),
    chunks !! i = Some c -> (S i < List.length chunks)%nat ->
    Z.of_nat (List.length c) = k.
End Batcher.

(** *** The same function on a store of arrays

    [array] is a reference; [slice(0)] allocates a copy, [splice] shortens
    the copy in place and allocates the removed run, [push] extends [chunks]
    in place. *)
Module Store.
Section Store.
Context {A : Type}.

Definition loc := positive.

(** An array slot holds a document or a reference to another array. *)
Inductive slot : Type :=
| Item (a : A)
| Ref (l : loc).

Definition alloc (h : gmap loc (list slot)) (xs : list slot)
    : gmap loc (list slot) * loc :=
  let l := fresh (dom h) in (<[l := xs]> h, l).

Definition contents (h : gmap loc (list slot)) (l : loc) : list slot :=
  default [] (h !! l).

(** [array.slice(0)] *)
Definition slice0 (h : gmap loc (list slot)) (array : loc) :=
  alloc h (contents h array).

(** [array.splice(0, deleteCount)] *)
Definition splice (h : gmap loc (list slot)) (array : loc) (deleteCount : Z) :=
  let '(removed, rest) := splice0 (contents h array) deleteCount in
  alloc (<[array := rest]> h) removed.

(** [array.push(v)] *)
Definition push (h : gmap loc (list slot)) (array : loc) (v : slot) :=
  <[array := contents h array ++ [v]]> h.

(** The store after at most [fuel] iterations of the loop, and whether the
    loop has been left. *)
Fixpoint chunkLoop (fuel : nat) (h : gmap loc (list slot))
    (newArrays chunks : loc) (chunkSize : Z) {struct fuel}
    : gmap loc (list slot) * bool :=
  match contents h newArrays with
  | [] => (h, true)
  | _ :: _ =>
      match fuel with
      | O => (h, false)
      | S fuel' =>
          let '(h1, removed) := splice h newArrays chunkSize in
          chunkLoop fuel' (push h1 chunks (Ref removed)) newArrays chunks chunkSize
      end
  end.

(** The store reached by [splitIntoChunks(array, chunkSize)] within [fuel]
    iterations, the reference it would return, and whether it returned. *)
Definition splitIntoChunks_run (fuel : nat) (h : gmap loc (list slot))
    (array : loc) (chunkSize : Z) : gmap loc (list slot) * loc * bool :=
  let '(h1, newArrays) := slice0 h array in
  let '(h2, chunks) := alloc h1 [] in
  let '(h3, returned) := chunkLoop fuel h2 newArrays chunks chunkSize in
  (h3, chunks, returned).

Definition splitIntoChunks (fuel : nat) (h : gmap loc (list slot))
    (array : loc) (chunkSize : Z) : option (gmap loc (list slot) * loc) :=
  let '(h', chunks, returned) := splitIntoChunks_run fuel h array chunkSize in
  if returned then Some (h', chunks) else None.

(** Reading an array of documents, and an array of arrays of documents,
    back from the store. *)
Definition items (xs : list slot) : list A :=
  omap (fun s => match s with Item a => Some a | Ref _ => None end) xs.

Definition read_chunks (h : gmap loc (list slot)) (chunks : loc) : list (list A) :=
  omap (fun s => match s with
                 | Ref l => Some (items (contents h l))
                 | Item _ => None
                 end) (contents h chunks).

(** What the loop maintains: [newArrays] holds the documents still to be
    chunked, [chunks] holds references to the chunks made so far, each an
    array of documents of its own. *)
Definition loop_inv (h : gmap loc (list slot)) (newArrays chunks : loc)
    (rest : list A) (made : list (list A)) : Prop :=
  newArrays <> chunks
  /\ h !! newArrays = Some (Item <$> rest)
  /\ exists ls, h !! chunks = Some (Ref <$> ls)
       /\ Forall2 (fun l c => l <> newArrays /\ l <> chunks
                              /\ h !! l = Some (Item <$> c)) ls made.
End Store.
End Store.

(** ** What the program does to the outside *)

(** The lines written through [hexo.log], by what they report. *)
Inductive line : Type :=
| MissingField (title fieldName : string)
    (* warn: "<title>" post has no "<fieldName>" field. *)
| NoPost                 (* info: There is no post to index. *)
| Clearing               (* info: Clearing index on Algolia... *)
| ClearError (error : exn)
    (* info: Error has occurred during clearing index : <error> *)
| Cleared                (* info: Index cleared. *)
| Indexing               (* info: Indexing posts on Algolia... *)
| IndexError (error : exn)
    (* info: Error has occurred during indexing posts : <error> *)
| Indexed (posts : nat). (* info: <posts> posts indexed. *)

Inductive event : Type :=
| Generate               (* hexo.call('generate') *)
| Load                   (* hexo.database.load() *)
| Find (model : string)  (* hexo.database.model(..).find(..).sort(..).toArray() *)
| Log (l : line)         (* hexo.log.warn / hexo.log.info *)
| InitIndex (appId adminApiKey indexName : option string)
                         (* algoliasearch(..).initIndex(..) *)
| ClearObjects           (* algoliaIndex.clearObjects() *)
| SaveObjects (content : list (gmap string val))
                         (* algoliaIndex.saveObjects(content) *)
| Callback (error : option exn).
                         (* callback() / callback(error) *)

(** A computation that may throw and that leaves a trace: the events it
    caused, in order, and its value or the exception that ended it. *)
Definition M (A : Type) : Type := list event * result A.

Definition ret {A} (a : A) : M A := ([], Ok a).

Definition throw {A} (e : exn) : M A := ([], Err e).

Definition emit (e : event) : M unit := ([e], Ok tt).

Definition bind {A B} (m : M A) (f : A -> M B) : M B :=
  match m with
  | (t, Ok a) => let '(t', r) := f a in (t ++ t', r)
  | (t, Err e) => (t, Err e)
  end.

Definition lift {A} (r : result A) : M A := ([], r).

Declare Scope js_scope.
Delimit Scope js_scope with js.
Notation "'do' x <- m ; k" := (bind m (fun x => k))
  (at level 10, x name, m at level 100, k at level 200) : js_scope.
Notation "'do' ' p <- m ; k" := (bind m (fun x => match x with p => k end))
  (at level 10, p pattern, m at level 100, k at level 200) : js_scope.
Notation "'run' m ; k" := (bind m (fun _ => k))
  (at level 10, m at level 100, k at level 200) : js_scope.
Local Open Scope js_scope.

(** [xs.forEach(x => { acc = body(acc, x) })], stopped by the first throw. *)
Fixpoint forEach {A S} (body : S -> A -> M S) (acc : S) (xs : list A) : M S :=
  match xs with
  | [] => ret acc
  | x :: xs' => do acc' <- body acc x; forEach body acc' xs'
  end.

(** [xs.map(f)], stopped by the first throw. *)
Fixpoint mapArray {A B} (f : A -> M B) (xs : list A) : M (list B) :=
  match xs with
  | [] => ret []
  | x :: xs' => do y <- f x; do ys <- mapArray f xs'; ret (y :: ys)
  end.

(** ** The engine and the packages the module imports

    What the module obtains from outside its own text, and what an engine
    computes by tables of its own. *)
Inductive integer : Type :=
| Finite (z : Z)
| PlusInfinity
| MinusInfinity.

Record Host : Type := {
  (** the [striptags] package, applied to the value and to the arguments
      written in the spec *)
  striptags : val -> list string -> result val;
  (** a member of [Object.prototype] that a lookup on the filter table
      finds, applied with [this] undefined *)
  inherited : string -> val -> list string -> result val;
  (** [ToIntegerOrInfinity] on a string that is not a plain decimal integer
      (blanks, fractions, exponents, other radices, [Infinity], junk) *)
  numberOf : string -> integer;
  (** [ToString] on numbers, arrays and objects *)
  stringOf : val -> result string
}.

Section Model.
Variable host : Host.

(** *** Coercions *)

(** The value of a run of decimal digits, most significant first. *)
Fixpoint digits (acc : Z) (s : string) : option Z :=
  match s with
  | EmptyString => Some acc
  | String c rest =>
      let n := nat_of_ascii c in
      if (48 <=? n)%nat && (n <=? 57)%nat
      then digits (10 * acc + Z.of_nat (n - 48)) rest
      else None
  end.

(** [ToIntegerOrInfinity] of an argument of a spec: a missing argument and
    the empty string give 0, an optionally signed run of digits its value,
    the rest is the engine's.  (A literal past 2^53 is rounded by the
    engine, to a number that still exceeds every string length.) *)
Definition ToIntegerOrInfinity (arg : option string) : integer :=
  match arg with
  | None => Finite 0
  | Some EmptyString => Finite 0
  | Some (String c rest as s) =>
      let signed :=
        if Ascii.eqb c "-" then
          match rest with
          | EmptyString => None
          | _ => option_map Z.opp (digits 0 rest)
          end
        else if Ascii.eqb c "+" then
          match rest with
          | EmptyString => None
          | _ => digits 0 rest
          end
        else digits 0 s in
      match signed with
      | Some z => Finite z
      | None => numberOf host s
      end
  end.

(** [`${v}`] *)
Definition ToString (v : val) : result string :=
  match v with
  | VString s => Ok s
  | VUndefined => Ok "undefined"
  | VNull => Ok "null"
  | VBool true => Ok "true"
  | VBool false => Ok "false"
  | _ => stringOf host v
  end.

(** *** The filter table *)

(** [S.substr(start, length)] *)
Definition substr (S : string) (start length : option string) : string :=
  let size := Z.of_nat (String.length S) in
  let intStart :=
    match ToIntegerOrInfinity start with
    | MinusInfinity => 0
    | Finite z => if (z <? 0)%Z then Z.max (size + z) 0 else Z.min z size
    | PlusInfinity => size
    end in
  let intLength :=
    match length with
    | None => size
    | Some _ =>
        match ToIntegerOrInfinity length with
        | MinusInfinity => 0
        | Finite z => Z.min (Z.max z 0) size
        | PlusInfinity => size
        end
    end in
  let intEnd := Z.min (intStart + intLength) size in
  substring (Z.to_nat intStart) (Z.to_nat (intEnd - intStart)) S.

(** [truncate: function(post, start, end) { return post.substr(start, end) }]:
    only a string has a [substr] to call. *)
Definition truncate (post : val) (args : list string) : result val :=
  match post with
  | VString s => Ok (VString (substr s (args !! 0%nat) (args !! 1%nat)))
  | _ => Err TypeError
  end.

(** The names a lookup on an object literal finds on [Object.prototype] and
    can call. *)
Definition inheritedNames : list string :=
  [ "constructor"; "hasOwnProperty"; "isPrototypeOf"; "propertyIsEnumerable";
    "toLocaleString"; "toString"; "valueOf";
    "__defineGetter__"; "__defineSetter__";
    "__lookupGetter__"; "__lookupSetter__" ].

(** [FILTER_FUNCTIONS[filterName]], when it is something [apply] can call. *)
Definition FILTER_FUNCTIONS (filterName : string)
    : option (val -> list string -> result val) :=
  if String.eqb filterName "strip" then Some (striptags host)
  else if String.eqb filterName "truncate" then Some truncate
  else if bool_decide (filterName ∈ inheritedNames)
       then Some (inherited host filterName)
  else None.

(** ** The Field Spec Parser *)

(** [fields.filter((field) => !/:/.test(field))] *)
Definition getBasicFields (fields : list string) : list string :=
  List.filter (fun field => negb (hasColon field)) fields.

(** [fields.filter((field) => /:/.test(field))] *)
Definition getFieldsWithFilters (fields : list string) : list string :=
  List.filter (fun field => hasColon field) fields.

(** ** The Content Transformer *)

(** [pick(object, attributes)]; [newObject[attribute] = ...] is the insertion
    of a data property, which it is for every attribute but [__proto__]. *)
Definition pick (object : gmap string val) (attributes : list string)
    : gmap string val :=
  foldl (fun newObject attribute =>
           if hasOwnProperty object attribute
           then <[attribute := get object attribute]> newObject
           else newObject)
        ∅ attributes.

(** [['tags', 'categories'].filter((field) => fields.includes(field))] *)
Definition tagsAndCategoriesFields (fields : list string) : list string :=
  List.filter (fun field => bool_decide (field ∈ fields)) ["tags"; "categories"].

(** [v.data.forEach]: the array there is to iterate.  Reading [data] off
    [undefined] or [null] throws, and only an array has a [forEach] to
    call. *)
Definition dataOf (v : val) : result (list val) :=
  match v with
  | VObject o =>
      match get o "data" with
      | VArray xs => Ok xs
      | _ => Err TypeError
      end
  | _ => Err TypeError
  end.

(** [fieldElement.name] *)
Definition nameOf (fieldElement : val) : result val :=
  match fieldElement with
  | VUndefined | VNull => Err TypeError
  | VObject o => Ok (get o "name")
  | _ => Ok VUndefined
  end.

(** [contentToIndex[field].push(v)] *)
Definition pushAt (contentToIndex : gmap string val) (field : string) (v : val)
    : gmap string val :=
  match contentToIndex !! field with
  | Some (VArray xs) => <[field := VArray (xs ++ [v])]> contentToIndex
  | _ => contentToIndex
  end.

(** The body of [tagsAndCategoriesFields.forEach]. *)
Definition extractTerms (initialContent contentToIndex : gmap string val)
    (field : string) : M (gmap string val) :=
  let contentToIndex := <[field := VArray []]> contentToIndex in
  do data <- lift (dataOf (get initialContent field));
  forEach (fun contentToIndex fieldElement =>
             do name <- lift (nameOf fieldElement);
             ret (pushAt contentToIndex field name))
          contentToIndex data.

(** The body of [fieldFilters.forEach], on the two variables it updates:
    [indexedFieldName] and [fieldValue]. *)
Definition applyFilter (state : list string * val) (filter : string)
    : M (list string * val) :=
  let '(indexedFieldName, fieldValue) := state in
  match split "," filter with
  | filterName :: filterArgs =>
      let indexedFieldName := indexedFieldName ++ [upperFirst filterName] in
      match FILTER_FUNCTIONS filterName with
      | Some f =>
          do fieldValue <- lift (f fieldValue filterArgs);
          ret (indexedFieldName, fieldValue)
      | None => throw TypeError
      end
  | [] => throw TypeError
  end.

(** The body of [fieldsWithFilters.forEach]; the closing assignment
    [contentToIndex[fieldName + indexedFieldName.join('')] = fieldValue]
    is the insertion of a data property, which it is for every key but
    [__proto__]. *)
Definition executeFilters (initialContent contentToIndex : gmap string val)
    (field : string) : M (gmap string val) :=
  let '(fieldName, fieldFilters) :=
    match split ":" field with
    | fieldName :: fieldFilters => (fieldName, fieldFilters)
    | [] => ("undefined", [])
    end in
  if negb (hasOwnProperty initialContent fieldName) then
    do title <- lift (ToString (get initialContent "title"));
    run emit (Log (MissingField title fieldName));
    ret contentToIndex
  else
    do '(indexedFieldName, fieldValue) <-
      forEach applyFilter ([], get initialContent fieldName) fieldFilters;
    ret (<[fieldName +:+ join indexedFieldName := fieldValue]> contentToIndex).

(** The body of [contents.map]; [selected] is [tagsAndCategoriesFields]. *)
Definition prepareContent (fields fieldsWithFilters selected : list string)
    (initialContent : gmap string val) : M (gmap string val) :=
  let contentToIndex := pick initialContent fields in
  let contentToIndex := <["objectID" := get initialContent "_id"]> contentToIndex in
  do contentToIndex <-
    forEach (extractTerms initialContent) contentToIndex selected;
  forEach (executeFilters initialContent) contentToIndex fieldsWithFilters.

Definition prepareContents (contents : list (gmap string val))
    (fields fieldsWithFilters : list string) : M (list (gmap string val)) :=
  let selected := tagsAndCategoriesFields fields in
  mapArray (prepareContent fields fieldsWithFilters selected) contents.

(** *** The filter chain as the specification words it

    A filter-bearing spec parses into a field name and an ordered sequence of
    steps, each a filter name with its positional arguments; the chain runs
    left to right, every step receiving the value the previous one returned
    as its first argument; the result is stored under the field name followed
    by the capitalized filter names in chain order. *)
Record FilterStep : Type := {
  name : string;
  args : list string
}.

Record ParsedFieldSpec : Type := {
  fieldName : string;
  filters : list FilterStep
}.

Definition parseStep (segment : string) : FilterStep :=
  match split "," segment with
  | n :: a => {| name := n; args := a |}
  | [] => {| name := EmptyString; args := [] |}
  end.

Definition parseFieldSpec (field : string) : ParsedFieldSpec :=
  match split ":" field with
  | f :: segments => {| fieldName := f; filters := parseStep <$> segments |}
  | [] => {| fieldName := "undefined"; filters := [] |}
  end.

Definition callFilter (step : FilterStep) (value : val) : result val :=
  match FILTER_FUNCTIONS (name step) with
  | Some f => f value (args step)
  | None => Err TypeError
  end.

Fixpoint runChain (steps : list FilterStep) (value : val) : result val :=
  match steps with
  | [] => Ok value
  | step :: later =>
      match callFilter step value with
      | Ok value' => runChain later value'
      | Err e => Err e
      end
  end.

Definition synthesizedKey (spec : ParsedFieldSpec) : string :=
  fieldName spec +:+ join ((fun step => upperFirst (name step)) <$> filters spec).

(** ** The Sync Orchestrator *)

(** [hexo.config.algolia]; a setting left out is [None]. *)
Record Config : Type := {
  appId : option string;
  adminApiKey : option string;
  indexName : option string;
  chunkSize : option Z;
  post_fields : list string;
  page_fields : list string
}.

(** The three variables read from [process.env]. *)
Record Env : Type := {
  ALGOLIA_APP_ID : option string;
  ALGOLIA_ADMIN_API_KEY : option string;
  ALGOLIA_INDEX_NAME : option string
}.

(** How the collaborators answer during one run: the host pipeline, its
    database, the Algolia client. *)
Record World : Type := {
  generate : result unit;                 (* await hexo.call('generate') *)
  load : result unit;                     (* await hexo.database.load() *)
  Post : list (gmap string val);          (* published posts, by date *)
  Page : list (gmap string val);          (* all pages, by date *)
  client : result unit;                   (* algoliasearch(..).initIndex(..) *)
  clearObjects : result unit;             (* await algoliaIndex.clearObjects() *)
  saveObjects : list (gmap string val) -> result unit;
                                          (* the promise of saveObjects(content) *)
  winner : nat                            (* which rejection settles first *)
}.

(** [a || b] on settings: an unset or empty [a] gives [b]. *)
Definition orElse (a b : option string) : option string :=
  match a with
  | Some EmptyString | None => b
  | Some _ => a
  end.

(** Truthiness, and [v.n] on a truthy [v]. *)
Definition truthy (v : val) : bool :=
  match v with
  | VUndefined | VNull | VBool false | VNumber 0 | VString EmptyString => false
  | _ => true
  end.

Definition member (v : val) (k : string) : val :=
  match v with
  | VObject o => get o k
  | _ => VUndefined
  end.

(** [Promise.all] over the promises of the uploads: fulfilled when all are,
    rejected with the rejection that settles first otherwise. *)
Definition rejections (w : World) (chunkedContents : list (list (gmap string val)))
    : list exn :=
  omap (fun content => match saveObjects w content with
                       | Err e => Some e
                       | Ok _ => None
                       end) chunkedContents.

Definition promiseAll (w : World) (chunkedContents : list (list (gmap string val)))
    : result unit :=
  match rejections w chunkedContents with
  | [] => Ok tt
  | e :: es => Err (default e ((e :: es) !! (winner w mod List.length (e :: es))%nat))
  end.

(** Lines 171-179: the uploads. *)
Definition upload (w : World) (posts : nat)
    (chunkedContents : list (list (gmap string val))) : M unit :=
  run emit (Log Indexing);
  run forEach (fun _ content => emit (SaveObjects content)) tt chunkedContents;
  match promiseAll w chunkedContents with
  | Err error =>
      run emit (Log (IndexError error));
      emit (Callback (Some error))
  | Ok _ => emit (Log (Indexed posts))
  end.

(** Lines 159-169, followed by [rest] unless the [catch] returns. *)
Definition clear (w : World) (args : val) (rest : M unit) : M unit :=
  if truthy args && negb (truthy (member args "n")) then
    run emit (Log Clearing);
    run emit ClearObjects;
    match clearObjects w with
    | Err error =>
        run emit (Log (ClearError error));
        emit (Callback (Some error))
    | Ok _ =>
        run emit (Log Cleared);
        rest
    end
  else rest.

(** Lines 138-153: [None] after the early return, the number of posts and
    the documents to index otherwise. *)
Definition fetch (w : World) (config : Config)
    : M (option (nat * list (gmap string val))) :=
  let postFields := getBasicFields (post_fields config) in
  let postFieldsWithFilters := getFieldsWithFilters (post_fields config) in
  let pageFields := getBasicFields (page_fields config) in
  let pageFieldsWithFilters := getFieldsWithFilters (page_fields config) in
  run emit Generate;
  run lift (generate w);
  run emit Load;
  run lift (load w);
  run emit (Find "Post");
  let posts := Post w in
  if (List.length posts =? 0)%nat then
    run emit (Log NoPost);
    run emit (Callback None);
    ret None
  else
    do posts <- prepareContents posts postFields postFieldsWithFilters;
    run emit (Find "Page");
    let pages := Page w in
    do pages <- prepareContents pages pageFields pageFieldsWithFilters;
    let contents := posts ++ pages in
    ret (Some (List.length posts, contents)).

(** [algoliaConfig.chunkSize || 5000] *)
Definition algoliaChunkSize (config : Config) : Z :=
  match chunkSize config with
  | Some 0 | None => 5000
  | Some n => n
  end.

(** One run of the command: its trace, and how the promise it returns is
    settled ([None] while [splitIntoChunks] has not returned within
    [fuel] iterations). *)
Definition algoliaCommand (fuel : nat) (w : World) (config : Config) (env : Env)
    (args : val) : list event * option (result unit) :=
  let algoliaAppId := orElse (ALGOLIA_APP_ID env) (appId config) in
  let algoliaAdminApiKey := orElse (ALGOLIA_ADMIN_API_KEY env) (adminApiKey config) in
  let algoliaIndexName := orElse (ALGOLIA_INDEX_NAME env) (indexName config) in
  let algoliaChunkSize := algoliaChunkSize config in
  match fetch w config with
  | (t, Err e) => (t, Some (Err e))
  | (t, Ok None) => (t, Some (Ok tt))
  | (t, Ok (Some (posts, contents))) =>
      match splitIntoChunks fuel contents algoliaChunkSize with
      | None => (t, None)
      | Some chunkedContents =>
          let '(t', r) :=
            run emit (InitIndex algoliaAppId algoliaAdminApiKey algoliaIndexName);
            run lift (client w);
            clear w args (upload w posts chunkedContents) in
          (t ++ t', Some r)
      end
  end.

End Model.

(** ** Reading a trace *)

(** The batches sent to the index, in the order they were sent. *)
Definition uploads (t : list event) : list (list (gmap string val)) :=
  omap (fun e => match e with SaveObjects content => Some content | _ => None end) t.

(** How many clear requests were sent. *)
Definition clears (t : list event) : nat :=
  List.length (List.filter (fun e => match e with ClearObjects => true | _ => false end) t).

(** The databases queried. *)
Definition queried (t : list event) : list string :=
  omap (fun e => match e with Find model => Some model | _ => None end) t.

(** The errors handed to the callback. *)
Definition failures (t : list event) : list exn :=
  omap (fun e => match e with Callback (Some error) => Some error | _ => None end) t.

(** Neither a request to the index nor an error handed to the callback. *)
Definition calm (e : event) : bool :=
  match e with
  | ClearObjects | SaveObjects _ | Callback (Some _) => false
  | _ => true
  end.

(** A trace of such events only. *)
Abbreviation quiet := (Forall (fun e => calm e = true)).

(** No batch is sent before the first clear request. *)
Fixpoint clearedFirst (t : list event) : bool :=
  match t with
  | [] => true
  | ClearObjects :: _ => true
  | SaveObjects _ :: _ => false
  | _ :: t' => clearedFirst t'
  end.

(** ** Keys no filter chain can write *)

(** [s] ends with [t]. *)
Fixpoint endsWith (t s : string) : bool :=
  String.eqb s t
  || match s with
     | EmptyString => false
     | String _ s' => endsWith t s'
     end.

(** The names [FILTER_FUNCTIONS] resolves to something callable. *)
Definition callableNames : list string :=
  "strip" :: "truncate" :: inheritedNames.

(** A key that does not end with the capitalized name of any filter. *)
Definition outOfReach (key : string) : bool :=
  forallb (fun n => negb (endsWith (upperFirst n) key)) callableNames.

(** The keys a list of specs writes. *)
Abbreviation keysOf fieldsWithFilters :=
  ((fun field => synthesizedKey (parseFieldSpec field)) <$> fieldsWithFilters).

(** ** A host to run the examples on *)

(** Modelled from the spec: the [strip] filter is the imported package
    [striptags], which is not part of the module; the specification says of
    it that it "removes markup/tags from a text value, returning plain
    text".  Here a tag runs from a [<] to the next [>]. *)
Fixpoint stripTags (inTag : bool) (s : string) : string :=
  match s with
  | EmptyString => EmptyString
  | String c rest =>
      if inTag then stripTags (negb (Ascii.eqb c ">")) rest
      else if Ascii.eqb c "<" then stripTags true rest
      else String c (stripTags false rest)
  end.

Definition plainHost : Host := {|
  striptags := fun v _ =>
    match v with
    | VString s => Ok (VString (stripTags false s))
    | _ => Err TypeError
    end;
  inherited := fun _ _ _ => Err TypeError;
  numberOf := fun _ => Finite 0;
  stringOf := fun _ => Ok "[object Object]"
|}.

(** A taxonomy term as the host stores it, and two records: a post with
    tags, categories and a field of its own called [objectID], and a page,
    which has no taxonomy. *)
Definition term (n slug : string) : gmap string val :=
  {[ "name" := VString n; "slug" := VString slug; "_id" := VString ("t-" +:+ slug) ]}.

Definition helloPost : gmap string val :=
  {[ "_id" := VString "p1";
     "title" := VString "Hello";
     "content" := VString "<b>hi</b>";
     "objectID" := VString "mine";
     "tags" := VObject {[ "data" := VArray [VObject (term "Rocq" "rocq");
                                            VObject (term "Search" "search")];
                          "length" := VNumber 2 ]};
     "categories" := VObject {[ "data" := VArray []; "length" := VNumber 0 ]} ]}.

Definition aboutPage : gmap string val :=
  {[ "_id" := VString "about";
     "title" := VString "About";
     "content" := VString "hello" ]}.

(** The value of an evaluation that is known to return. *)
Definition returned {A} (m : M (list A)) : list A :=
  match m.2 with
  | Ok xs => xs
  | Err _ => []
  end.

(** A site, its configuration and its environment: collaborators that
    answer every call, one post and one page, chunks of one document. *)
Definition calmWorld (posts pages : list (gmap string val)) : World := {|
  generate := Ok tt;
  load := Ok tt;
  Post := posts;
  Page := pages;
  client := Ok tt;
  clearObjects := Ok tt;
  saveObjects := fun _ => Ok tt;
  winner := 0
|}.

Definition blogConfig : Config := {|
  appId := Some "app";
  adminApiKey := Some "key";
  indexName := Some "blog";
  chunkSize := Some 1;
  post_fields := ["title"; "tags"; "content:strip"];
  page_fields := ["title"; "content:truncate,0,2"]
|}.

Definition noEnv : Env := {|
  ALGOLIA_APP_ID := None;
  ALGOLIA_ADMIN_API_KEY := None;
  ALGOLIA_INDEX_NAME := None
|}.

(** A site whose collaborators answer as given. *)
Definition worldOf (generated loaded built cleared : result unit)
    (saved : list (gmap string val) -> result unit)
    (posts pages : list (gmap string val)) : World := {|
  generate := generated;
  load := loaded;
  Post := posts;
  Page := pages;
  client := built;
  clearObjects := cleared;
  saveObjects := saved;
  winner := 0
|}.

(** [blogConfig] with other page fields, and with another chunk size. *)
Definition configOf (pageFields : list string) (size : option Z) : Config := {|
  appId := Some "app";
  adminApiKey := Some "key";
  indexName := Some "blog";
  chunkSize := size;
  post_fields := ["title"; "tags"; "content:strip"];
  page_fields := pageFields
|}.

(** * Properties *)

(** ** The Batcher *)

Section BatcherFacts.
Context {A : Type}.
Implicit Types (array rest : list A) (chunks : list (list A)).

Lemma splice0_removed array (k : Z) :
  0 < k -> array <> [] -> (splice0 array k).1 <> [].
Proof.
  intros Hk Hne. unfold splice0. simpl.
  destruct array as [|x xs]; [done|].
  destruct (Z.to_nat k) eqn:E; [lia|]. done.
Qed.

Lemma splice0_rest_length array (k : Z) :
  0 < k -> array <> [] ->
  (List.length (splice0 array k).2 < List.length array)%nat.
Proof.
  intros Hk Hne. unfold splice0. simpl. rewrite length_drop.
  destruct array as [|x xs]; [done|]. simpl. lia.
Qed.

Lemma chunkLoop_spec (k : Z) (fuel : nat) :
  0 < k ->
  forall rest chunks,
    (List.length rest <= fuel)%nat ->
    exists more,
      chunkLoop fuel rest chunks k = Some (chunks ++ more)
      /\ List.concat more = rest
      /\ Forall (fun c => c <> [] /\ Z.of_nat (List.length c) <= k) more
      /\ full_but_last k more
      /\ (rest = [] <-> more = []).
Proof.
  intros Hk. induction fuel as [|fuel IH]; intros rest chunks Hlen.
  - destruct rest as [|x xs]; [|simpl in Hlen; lia].
    exists []. simpl. rewrite app_nil_r. repeat split; done.
  - destruct rest as [|x xs].
    { exists []. simpl. rewrite app_nil_r. repeat split; done. }
    set (n := Z.to_nat k).
    assert (Hn : (0 < n)%nat) by (subst n; lia).
    destruct (IH (drop n (x :: xs)) (chunks ++ [take n (x :: xs)]))
      as (more & Hrun & Hcat & Hall & Hfull & Hnil).
    { rewrite length_drop. simpl in *. lia. }
    exists (take n (x :: xs) :: more).
    split; [|split; [|split; [|split]]].
    + simpl. fold n. rewrite <- app_assoc in Hrun. exact Hrun.
    + simpl. rewrite Hcat. apply take_drop.
    + constructor; [|exact Hall]. split.
      * destruct n; [lia|]. done.
      * rewrite length_take. lia.
    + intros i c Hi Hlast. destruct i as [|i].
      * simpl in Hi. injection Hi as <-.
        assert (Hmore : more <> []) by (destruct more; [simpl in Hlast; lia|done]).
        assert (Hdrop : drop n (x :: xs) <> []) by (intros E; apply Hmore, Hnil, E).
        assert (n < List.length (x :: xs))%nat.
        { destruct (decide (n < List.length (x :: xs))%nat) as [|Hge]; [done|].
          exfalso. apply Hdrop. apply drop_ge. lia. }
        rewrite length_take. lia.
      * simpl in Hi. apply (Hfull i c Hi). simpl in Hlast. lia.
    + split; intros E; discriminate E.
Qed.

(** C1.  For a positive chunk size [k], [splitIntoChunks] returns once the
    loop has had as many iterations as the array has elements; the chunks it
    returns, concatenated in order, are the array; every chunk has at most
    [k] elements (and at least one); every chunk before the last has exactly
    [k]; and the empty array gives no chunk at all. *)
Theorem splitIntoChunks_partition array (k : Z) (fuel : nat) :
  0 < k -> (List.length array <= fuel)%nat ->
  exists chunks,
    splitIntoChunks fuel array k = Some chunks
    /\ List.concat chunks = array
    /\ Forall (fun c => c <> [] /\ Z.of_nat (List.length c) <= k) chunks
    /\ full_but_last k chunks
    /\ (array = [] -> chunks = []).
Proof.
  intros Hk Hfuel.
  destruct (chunkLoop_spec k fuel Hk array [] Hfuel)
    as (more & Hrun & Hcat & Hall & Hfull & Hnil).
  exists more. unfold splitIntoChunks. simpl in Hrun.
  repeat split; try done. apply Hnil.
Qed.

End BatcherFacts.

(** The claim at work: seven documents in chunks of three. *)
Lemma splitIntoChunks_partition_witness :
  0 < 3
  /\ (List.length [1; 2; 3; 4; 5; 6; 7]%nat <= 7)%nat
  /\ exists chunks,
       splitIntoChunks 7 [1; 2; 3; 4; 5; 6; 7]%nat 3 = Some chunks
       /\ List.concat chunks = [1; 2; 3; 4; 5; 6; 7]%nat
       /\ Forall (fun c => c <> [] /\ Z.of_nat (List.length c) <= 3) chunks
       /\ full_but_last 3 chunks
       /\ ([1; 2; 3; 4; 5; 6; 7]%nat = [] -> chunks = []).
Proof.
  assert (Hk : 0 < 3) by lia.
  assert (Hfuel : (List.length [1; 2; 3; 4; 5; 6; 7]%nat <= 7)%nat) by (simpl; lia).
  split; [exact Hk|]. split; [exact Hfuel|].
  exact (splitIntoChunks_partition [1; 2; 3; 4; 5; 6; 7]%nat 3 7 Hk Hfuel).
Defined.

(** *** The input array is not touched *)

Section StoreFacts.
Context {A : Type}.
Implicit Types (h : gmap Store.loc (list (@Store.slot A))).
Implicit Types (l array newArrays chunks : Store.loc).

Lemma alloc_fresh h (xs : list (@Store.slot A)) :
  (Store.alloc h xs).2 ∉ dom h.
Proof. unfold Store.alloc. simpl. apply is_fresh. Qed.

Lemma alloc_lookup_new h (xs : list (@Store.slot A)) :
  (Store.alloc h xs).1 !! (Store.alloc h xs).2 = Some xs.
Proof. unfold Store.alloc. simpl. apply lookup_insert_eq. Qed.

Lemma alloc_lookup_old h (xs : list (@Store.slot A)) l :
  is_Some (h !! l) -> (Store.alloc h xs).1 !! l = h !! l.
Proof.
  intros Hl. unfold Store.alloc. simpl.
  apply lookup_insert_ne. intros E.
  apply (is_fresh (dom h)). rewrite E. by apply elem_of_dom.
Qed.

Lemma splice_lookup_old h newArrays (k : Z) l :
  is_Some (h !! l) -> l <> newArrays ->
  (Store.splice h newArrays k).1 !! l = h !! l.
Proof.
  intros Hl Hne. unfold Store.splice, splice0.
  rewrite alloc_lookup_old.
  - by apply lookup_insert_ne.
  - by rewrite lookup_insert_ne.
Qed.

Lemma push_lookup_old h chunks (v : @Store.slot A) l :
  l <> chunks -> Store.push h chunks v !! l = h !! l.
Proof. intros Hne. unfold Store.push. by apply lookup_insert_ne. Qed.

Lemma chunkLoop_step (fuel : nat) h newArrays chunks (k : Z) :
  Store.chunkLoop (S fuel) h newArrays chunks k =
  match Store.contents h newArrays with
  | [] => (h, true)
  | _ :: _ =>
      Store.chunkLoop fuel
        (Store.push (Store.splice h newArrays k).1 chunks
                    (Store.Ref (Store.splice h newArrays k).2))
        newArrays chunks k
  end.
Proof.
  simpl. destruct (Store.contents h newArrays); [done|].
  by destruct (Store.splice h newArrays k).
Qed.

(** The loop writes to [newArrays], to [chunks] and to arrays it allocates. *)
Lemma chunkLoop_frame (k : Z) newArrays chunks l (fuel : nat) :
  l <> newArrays -> l <> chunks ->
  forall h, is_Some (h !! l) ->
    (Store.chunkLoop fuel h newArrays chunks k).1 !! l = h !! l.
Proof.
  intros Hn Hc. induction fuel as [|fuel IH]; intros h Hl.
  - simpl. by destruct (Store.contents h newArrays).
  - rewrite chunkLoop_step.
    destruct (Store.contents h newArrays) as [|x xs] eqn:E; [done|].
    pose proof (splice_lookup_old h newArrays k l Hl Hn) as H1.
    rewrite IH.
    + rewrite push_lookup_old by done. exact H1.
    + rewrite push_lookup_old by done. by rewrite H1.
Qed.

Lemma splitIntoChunks_run_frame (fuel : nat) h array (k : Z) l :
  is_Some (h !! l) ->
  (Store.splitIntoChunks_run fuel h array k).1.1 !! l = h !! l.
Proof.
  intros Hl. unfold Store.splitIntoChunks_run, Store.slice0.
  destruct (Store.alloc h (Store.contents h array)) as [h1 newArrays] eqn:E1.
  destruct (Store.alloc h1 []) as [h2 chunks] eqn:E2.
  destruct (Store.chunkLoop fuel h2 newArrays chunks k) as [h3 returned] eqn:E3.
  simpl.
  assert (H1 : h1 !! l = h !! l).
  { change h1 with (h1, newArrays).1. rewrite <- E1. by apply alloc_lookup_old. }
  assert (Hn : l <> newArrays).
  { intros ->. apply (alloc_fresh h (Store.contents h array)).
    rewrite E1. simpl. by apply elem_of_dom. }
  assert (H2 : h2 !! l = h1 !! l).
  { change h2 with (h2, chunks).1. rewrite <- E2. apply alloc_lookup_old.
    by rewrite H1. }
  assert (Hc : l <> chunks).
  { intros ->. apply (alloc_fresh h1 []).
    rewrite E2. simpl. apply elem_of_dom. by rewrite H1. }
  change h3 with (h3, returned).1. rewrite <- E3.
  rewrite chunkLoop_frame; [congruence|done|done|].
  by rewrite H2, H1.
Qed.

(** C10.  Whatever the chunk size and however far the loop has got, the
    array passed to [splitIntoChunks] (and every other array that existed
    before the call) holds what it held before; in particular it does when
    the function returns, and the array returned is another one. *)
Theorem splitIntoChunks_input_unchanged (fuel : nat) h array (k : Z) :
  is_Some (h !! array) ->
  (Store.splitIntoChunks_run fuel h array k).1.1 !! array = h !! array
  /\ (forall l, is_Some (h !! l) ->
        (Store.splitIntoChunks_run fuel h array k).1.1 !! l = h !! l)
  /\ (forall h' chunks,
        Store.splitIntoChunks fuel h array k = Some (h', chunks) ->
        h' !! array = h !! array /\ chunks <> array).
Proof.
  intros Ha. split; [|split].
  - by apply splitIntoChunks_run_frame.
  - intros l Hl. by apply splitIntoChunks_run_frame.
  - intros h' chunks. unfold Store.splitIntoChunks.
    pose proof (splitIntoChunks_run_frame fuel h array k array Ha) as Hf.
    destruct (Store.splitIntoChunks_run fuel h array k) as [[h3 c] returned] eqn:E.
    destruct returned; [|done]. intros [= <- <-]. split; [exact Hf|].
    intros ->. revert E. unfold Store.splitIntoChunks_run, Store.slice0.
    destruct (Store.alloc h (Store.contents h array)) as [h1 newArrays] eqn:E1.
    destruct (Store.alloc h1 []) as [h2 chunks] eqn:E2.
    destruct (Store.chunkLoop fuel h2 newArrays chunks k) as [h4 r].
    intros [= _ -> _].
    apply (alloc_fresh h1 []). rewrite E2. simpl. apply elem_of_dom.
    change h1 with (h1, newArrays).1. rewrite <- E1.
    by rewrite alloc_lookup_old.
Qed.

End StoreFacts.

(** The claim at work: an array of three documents, chunks of two. *)
Lemma splitIntoChunks_input_unchanged_witness :
  let h : gmap Store.loc (list (@Store.slot nat)) :=
    {[ 1%positive := [Store.Item 10; Store.Item 20; Store.Item 30]%nat ]} in
  is_Some (h !! 1%positive)
  /\ (Store.splitIntoChunks_run 3 h 1%positive 2).1.1 !! 1%positive = h !! 1%positive
  /\ (forall l, is_Some (h !! l) ->
        (Store.splitIntoChunks_run 3 h 1%positive 2).1.1 !! l = h !! l)
  /\ (forall h' chunks,
        Store.splitIntoChunks 3 h 1%positive 2 = Some (h', chunks) ->
        h' !! 1%positive = h !! 1%positive /\ chunks <> 1%positive).
Proof.
  intros h.
  assert (Hlive : is_Some (h !! 1%positive)).
  { exists [Store.Item 10; Store.Item 20; Store.Item 30]%nat. reflexivity. }
  split; [exact Hlive|].
  exact (splitIntoChunks_input_unchanged 3 h 1%positive 2 Hlive).
Defined.

(** *** The two readings of [splitIntoChunks] agree *)

Section StoreRefines.
Context {A : Type}.
Implicit Types (h : gmap Store.loc (list (@Store.slot A))).
Implicit Types (l array newArrays chunks : Store.loc).

Lemma items_fmap (c : list A) : Store.items (Store.Item <$> c) = c.
Proof.
  unfold Store.items. induction c as [|a c IH]; [done|].
  cbn. by rewrite IH.
Qed.

Lemma read_chunks_inv h newArrays chunks (rest : list A) made :
  Store.loop_inv h newArrays chunks rest made ->
  Store.read_chunks h chunks = made.
Proof.
  intros (_ & _ & ls & Hc & Hall). unfold Store.read_chunks, Store.contents.
  rewrite Hc. simpl. clear Hc.
  induction Hall as [|l c ls made (_ & _ & Hl) _ IH]; [done|].
  cbn. rewrite Hl. f_equal; [apply items_fmap | exact IH].
Qed.

Lemma loop_inv_step h newArrays chunks (rest : list A) made (k : Z) :
  Store.loop_inv h newArrays chunks rest made ->
  Store.loop_inv
    (Store.push (Store.splice h newArrays k).1 chunks
                (Store.Ref (Store.splice h newArrays k).2))
    newArrays chunks (splice0 rest k).2 (made ++ [(splice0 rest k).1]).
Proof.
  intros (Hne & Hn & ls & Hc & Hall).
  unfold Store.splice, Store.contents. rewrite Hn. simpl.
  unfold splice0. simpl.
  set (n := Z.to_nat k).
  set (h1 := <[newArrays := drop n (Store.Item <$> rest)]> h).
  set (r := fresh (dom h1)).
  assert (Hfresh : r ∉ dom h1) by apply is_fresh.
  assert (Hrn : r <> newArrays).
  { intros E. apply Hfresh. rewrite E. apply elem_of_dom.
    subst h1. rewrite lookup_insert_eq. eauto. }
  assert (Hrc : r <> chunks).
  { intros E. apply Hfresh. rewrite E. apply elem_of_dom.
    subst h1. rewrite lookup_insert_ne by done. rewrite Hc. eauto. }
  unfold Store.push, Store.contents.
  rewrite (lookup_insert_ne _ r chunks) by done.
  replace (h1 !! chunks) with (Some (@Store.Ref A <$> ls))
    by (subst h1; rewrite lookup_insert_ne by done; by rewrite Hc).
  simpl.
  split; [done|]. split.
  - rewrite lookup_insert_ne by done.
    rewrite lookup_insert_ne by done.
    subst h1. rewrite lookup_insert_eq. by rewrite fmap_drop.
  - exists (ls ++ [r]). split.
    + rewrite lookup_insert_eq. by rewrite fmap_app.
    + apply Forall2_app.
      * eapply Forall2_impl; [exact Hall|].
        intros l c (Hln & Hlc & Hl). split; [done|]. split; [done|].
        rewrite lookup_insert_ne by done.
        assert (Hlr : r <> l).
        { intros E. apply Hfresh. rewrite E. apply elem_of_dom.
          subst h1. rewrite lookup_insert_ne by done. rewrite Hl. eauto. }
        rewrite lookup_insert_ne by done.
        subst h1. by rewrite lookup_insert_ne.
      * constructor; [|constructor]. split; [done|]. split; [done|].
        rewrite lookup_insert_ne by done.
        rewrite lookup_insert_eq. by rewrite fmap_take.
Qed.

Lemma chunkLoop_refines (k : Z) newArrays chunks (fuel : nat) :
  forall h (rest : list A) made,
    Store.loop_inv h newArrays chunks rest made ->
    chunkLoop fuel rest made k =
    if (Store.chunkLoop fuel h newArrays chunks k).2
    then Some (Store.read_chunks (Store.chunkLoop fuel h newArrays chunks k).1 chunks)
    else None.
Proof.
  induction fuel as [|fuel IH]; intros h rest made Hinv.
  - assert (Hn : Store.contents h newArrays = Store.Item <$> rest).
    { destruct Hinv as (_ & Hn & _). unfold Store.contents. by rewrite Hn. }
    pose proof (read_chunks_inv _ _ _ _ _ Hinv) as Hread.
    cbn [Store.chunkLoop]. rewrite Hn.
    destruct rest as [|x xs]; cbn; [|done]. by rewrite Hread.
  - assert (Hn : Store.contents h newArrays = Store.Item <$> rest).
    { destruct Hinv as (_ & Hn & _). unfold Store.contents. by rewrite Hn. }
    pose proof (read_chunks_inv _ _ _ _ _ Hinv) as Hread.
    rewrite chunkLoop_step. rewrite Hn.
    destruct rest as [|x xs].
    + cbn. by rewrite Hread.
    + pose proof (loop_inv_step _ _ _ _ _ k Hinv) as Hstep.
      cbn [fmap list_fmap]. rewrite <- (IH _ _ _ Hstep). reflexivity.
Qed.

(** The store reading returns exactly when the list reading does, and the
    array of arrays it returns holds the chunks of the list reading. *)
Lemma splitIntoChunks_refines (fuel : nat) h array (docs : list A) (k : Z) :
  h !! array = Some (Store.Item <$> docs) ->
  splitIntoChunks fuel docs k =
  match Store.splitIntoChunks fuel h array k with
  | Some (h', chunks) => Some (Store.read_chunks h' chunks)
  | None => None
  end.
Proof.
  intros Ha. unfold Store.splitIntoChunks, Store.splitIntoChunks_run, Store.slice0.
  unfold Store.contents at 1. rewrite Ha. simpl.
  set (newArrays := fresh (dom h)).
  set (h1 := <[newArrays := Store.Item <$> docs]> h).
  set (chunks := fresh (dom h1)).
  set (h2 := <[chunks := []]> h1).
  assert (Hne : newArrays <> chunks).
  { intros E. apply (is_fresh (dom h1)). fold chunks. rewrite <- E.
    apply elem_of_dom. subst h1. rewrite lookup_insert_eq. eauto. }
  assert (Hinv : Store.loop_inv h2 newArrays chunks docs []).
  { split; [done|]. split.
    - subst h2. rewrite lookup_insert_ne by done.
      subst h1. by rewrite lookup_insert_eq.
    - exists []. split; [|constructor]. subst h2. by rewrite lookup_insert_eq. }
  pose proof (chunkLoop_refines k newArrays chunks fuel h2 docs [] Hinv) as Hr.
  unfold splitIntoChunks.
  destruct (Store.chunkLoop fuel h2 newArrays chunks k) as [h3 returned].
  simpl in Hr. rewrite Hr. by destruct returned.
Qed.

End StoreRefines.

(** ** The trace monad and the string helpers *)

Lemma bind_Ok_inv {A B} (m : M A) (f : A -> M B) (t : list event) (b : B) :
  bind m f = (t, Ok b) ->
  exists t1 a t2, m = (t1, Ok a) /\ f a = (t2, Ok b) /\ t = t1 ++ t2.
Proof.
  destruct m as [t1 [a|e]]; simpl; [|intros [= _ ?]; done].
  destruct (f a) as [t2 r] eqn:E. intros [= <- ->].
  exists t1, a, t2. by rewrite E.
Qed.

Lemma bind_pure {A B} (a : A) (f : A -> M B) : bind ([], Ok a) f = f a.
Proof. simpl. by destruct (f a). Qed.

Lemma bind_Err {A B} (t : list event) (e : exn) (f : A -> M B) :
  bind (t, Err e) f = (t, Err e).
Proof. done. Qed.


Lemma bind_snd {A B} (m : M A) (f : A -> M B) :
  (bind m f).2 = match m.2 with
                 | Ok a => (f a).2
                 | Err e => Err e
                 end.
Proof. destruct m as [t [a|e]]; simpl; [|done]. by destruct (f a). Qed.


Lemma mapArray_Ok_inv {A B} (f : A -> M B) (xs : list A) (t : list event) (ys : list B) :
  mapArray f xs = (t, Ok ys) ->
  Forall2 (fun x y => exists t', f x = (t', Ok y)) xs ys.
Proof.
  revert t ys. induction xs as [|x xs IH]; intros t ys.
  - simpl. intros [= _ <-]. constructor.
  - simpl. intros H.
    apply bind_Ok_inv in H as (t1 & y & t2 & Hx & H & _).
    apply bind_Ok_inv in H as (t3 & ys' & t4 & Hxs & H & _).
    injection H as _ <-. constructor; eauto.
Qed.

Lemma split_cons (sep : ascii) (s : string) :
  exists piece pieces, split sep s = piece :: pieces.
Proof.
  induction s as [|c s (piece & pieces & IH)]; simpl; [eauto|].
  destruct (Ascii.eqb c sep); [eauto|]. rewrite IH. eauto.
Qed.

Lemma split_hasColon (field : string) :
  hasColon field = true ->
  exists f segment segments, split ":" field = f :: segment :: segments.
Proof.
  induction field as [|c rest IH]; simpl; [done|].
  destruct (Ascii.eqb c ":") eqn:E; simpl.
  - intros _. destruct (split_cons ":" rest) as (piece & pieces & ->). eauto.
  - intros H. destruct (IH H) as (f & segment & segments & ->). eauto.
Qed.

Lemma append_nil_r (s : string) : s +:+ EmptyString = s.
Proof.
  induction s as [|c s IH]; [done|].
  change (String c (s +:+ EmptyString) = String c s). by rewrite IH.
Qed.

Lemma endsWith_refl (t : string) : endsWith t t = true.
Proof. destruct t; simpl; by rewrite ?String.eqb_refl, ?Ascii.eqb_refl. Qed.

Lemma endsWith_app (t p s : string) :
  endsWith t s = true -> endsWith t (p +:+ s) = true.
Proof.
  intros H. induction p as [|c p IH]; [done|].
  change (String c p +:+ s) with (String c (p +:+ s)).
  simpl. rewrite IH. apply orb_true_r.
Qed.

Lemma join_endsWith (parts : list string) (last : string) :
  endsWith last (join (parts ++ [last])) = true.
Proof.
  induction parts as [|part parts IH].
  - change (join ([] ++ [last])) with (last +:+ EmptyString).
    rewrite append_nil_r. apply endsWith_refl.
  - change (join ((part :: parts) ++ [last]))
      with (part +:+ join (parts ++ [last])).
    by apply endsWith_app.
Qed.

(** ** The Content Transformer *)

Section TransformerFacts.
Variable host : Host.
Implicit Types (initialContent contentToIndex doc : gmap string val).
Implicit Types (field key : string) (fields fieldsWithFilters : list string).

(** The inner loop of a spec is the chain of the specification, and it
    collects the capitalized filter names on the way. *)
Lemma applyFilter_chain (segments : list string) :
  forall (names : list string) (value : val),
    forEach (applyFilter host) (names, value) segments =
    match runChain host (parseStep <$> segments) value with
    | Ok value' =>
        ([], Ok (names ++ ((fun step => upperFirst (name step))
                             <$> (parseStep <$> segments)), value'))
    | Err e => ([], Err e)
    end.
Proof.
  induction segments as [|segment segments IH]; intros names value.
  - simpl. by rewrite app_nil_r.
  - destruct (split_cons "," segment) as (n & a & Hs).
    assert (Hp : parseStep segment = {| name := n; args := a |})
      by (unfold parseStep; by rewrite Hs).
    cbn [forEach fmap list_fmap runChain]. rewrite Hp.
    unfold applyFilter at 1. rewrite Hs. unfold callFilter. cbn [name args].
    destruct (FILTER_FUNCTIONS host n) as [f|]; [|done].
    unfold lift, ret. destruct (f value a) as [value'|e]; [|done].
    rewrite !bind_pure. rewrite IH.
    destruct (runChain host (parseStep <$> segments) value'); [|done].
    by rewrite <- app_assoc.
Qed.

(** What one spec does to the document being built. *)
Lemma executeFilters_spec initialContent contentToIndex field :
  executeFilters host initialContent contentToIndex field =
  let spec := parseFieldSpec field in
  if hasOwnProperty initialContent (fieldName spec) then
    match runChain host (filters spec) (get initialContent (fieldName spec)) with
    | Ok value => ([], Ok (<[synthesizedKey spec := value]> contentToIndex))
    | Err e => ([], Err e)
    end
  else
    match ToString host (get initialContent "title") with
    | Ok title => ([Log (MissingField title (fieldName spec))], Ok contentToIndex)
    | Err e => ([], Err e)
    end.
Proof.
  unfold executeFilters, parseFieldSpec, synthesizedKey.
  destruct (split_cons ":" field) as (f & segments & ->). cbn [fieldName filters].
  destruct (hasOwnProperty initialContent f); cbn [negb].
  - rewrite applyFilter_chain.
    by destruct (runChain host (parseStep <$> segments) (get initialContent f)).
  - unfold lift. by destruct (ToString host (get initialContent "title")).
Qed.

Lemma FILTER_FUNCTIONS_callable (n : string) :
  is_Some (FILTER_FUNCTIONS host n) -> n ∈ callableNames.
Proof.
  unfold FILTER_FUNCTIONS, callableNames.
  destruct (String.eqb n "strip") eqn:E1.
  { apply String.eqb_eq in E1 as ->. intros _. apply list_elem_of_here. }
  destruct (String.eqb n "truncate") eqn:E2.
  { apply String.eqb_eq in E2 as ->. intros _.
    apply list_elem_of_further, list_elem_of_here. }
  case_bool_decide as E3; [|intros [? [=]]].
  intros _. by do 2 apply list_elem_of_further.
Qed.

Lemma runChain_callable (steps : list FilterStep) (value value' : val) :
  runChain host steps value = Ok value' ->
  Forall (fun step => name step ∈ callableNames) steps.
Proof.
  revert value. induction steps as [|step steps IH]; intros value; [constructor|].
  simpl. unfold callFilter.
  destruct (FILTER_FUNCTIONS host (name step)) as [f|] eqn:E; [|done].
  destruct (f value (args step)) as [v|e]; [|done].
  intros H. constructor; [|by eapply IH].
  apply FILTER_FUNCTIONS_callable. by rewrite E.
Qed.

(** A chain of at least one step that ran to its end wrote a key ending with
    the capitalized name of a filter. *)
Lemma synthesizedKey_reach (spec : ParsedFieldSpec) (key : string) :
  filters spec <> [] ->
  Forall (fun step => name step ∈ callableNames) (filters spec) ->
  outOfReach key = true ->
  synthesizedKey spec <> key.
Proof.
  intros Hne Hall Hkey E. unfold synthesizedKey in E.
  destruct (filters spec) as [|s0 ss] using rev_ind; [done|].
  apply Forall_app in Hall as [_ Hlast]. rewrite Forall_singleton in Hlast.
  rewrite fmap_app in E. cbn [fmap list_fmap] in E.
  assert (Hend : endsWith (upperFirst (name s0)) key = true).
  { rewrite <- E. apply endsWith_app, join_endsWith. }
  unfold outOfReach in Hkey. rewrite forallb_forall in Hkey.
  assert (Hin : In (name s0) callableNames) by (by apply list_elem_of_In).
  specialize (Hkey _ Hin). rewrite Hend in Hkey. discriminate Hkey.
Qed.

Lemma executeFilters_keeps initialContent contentToIndex field t doc key :
  hasColon field = true ->
  executeFilters host initialContent contentToIndex field = (t, Ok doc) ->
  outOfReach key = true ->
  doc !! key = contentToIndex !! key.
Proof.
  intros Hcolon Hrun Hkey. rewrite executeFilters_spec in Hrun. cbv zeta in Hrun.
  destruct (hasOwnProperty initialContent (fieldName (parseFieldSpec field))).
  - destruct (runChain host _ _) as [value|e] eqn:Hchain; [|done].
    injection Hrun as _ <-. apply lookup_insert_ne.
    apply synthesizedKey_reach; [|by eapply runChain_callable|done].
    unfold parseFieldSpec.
    destruct (split_hasColon field Hcolon) as (f & segment & segments & ->).
    done.
  - destruct (ToString host _); [|done]. by injection Hrun as _ <-.
Qed.

Lemma forEach_executeFilters_keeps initialContent fieldsWithFilters key :
  Forall (fun field => hasColon field = true) fieldsWithFilters ->
  outOfReach key = true ->
  forall contentToIndex t doc,
    forEach (executeFilters host initialContent) contentToIndex fieldsWithFilters
      = (t, Ok doc) ->
    doc !! key = contentToIndex !! key.
Proof.
  intros Hall Hkey. induction Hall as [|field specs Hcolon _ IH];
    intros contentToIndex t doc.
  - simpl. by intros [= _ <-].
  - simpl. intros H.
    apply bind_Ok_inv in H as (t1 & doc1 & t2 & H1 & H2 & _).
    rewrite (IH _ _ _ H2). by eapply executeFilters_keeps.
Qed.

(** The specs the orchestrator hands over as filter-bearing are. *)
Lemma getFieldsWithFilters_hasColon fields :
  Forall (fun field => hasColon field = true) (getFieldsWithFilters fields).
Proof.
  unfold getFieldsWithFilters. apply List.Forall_forall.
  intros field Hin. by apply filter_In in Hin as [_ H].
Qed.

(** *** Taxonomy extraction *)

(** The inner loop over the terms of a relation. *)
Lemma collect_names field (terms : list (gmap string val)) :
  forall doc (acc : list val),
    doc !! field = Some (VArray acc) ->
    forEach (fun contentToIndex fieldElement =>
               bind (lift (nameOf fieldElement))
                    (fun name => ret (pushAt contentToIndex field name)))
            doc (VObject <$> terms)
    = ([], Ok (<[field := VArray (acc ++ ((fun term => get term "name") <$> terms))]> doc)).
Proof.
  induction terms as [|term terms IH]; intros doc acc Hdoc.
  - simpl. rewrite app_nil_r. unfold ret. by rewrite insert_id.
  - cbn [fmap list_fmap forEach nameOf]. unfold lift, ret. rewrite !bind_pure.
    unfold pushAt. rewrite Hdoc.
    rewrite (IH _ (acc ++ [get term "name"])) by apply lookup_insert_eq.
    rewrite insert_insert_eq. by rewrite <- app_assoc.
Qed.

Lemma collect_frame field (data : list val) :
  forall doc t r,
    forEach (fun contentToIndex fieldElement =>
               bind (lift (nameOf fieldElement))
                    (fun name => ret (pushAt contentToIndex field name)))
            doc data = (t, r) ->
    t = [] /\ match r with
              | Ok doc' => forall k, k <> field -> doc' !! k = doc !! k
              | Err e => e = TypeError
              end.
Proof.
  induction data as [|fieldElement data IH]; intros doc t r.
  - simpl. by intros [= <- <-].
  - cbn [forEach]. unfold lift, ret.
    destruct (nameOf fieldElement) as [name|e] eqn:E.
    + rewrite !bind_pure. intros H. destruct (IH _ _ _ H) as [-> Hr].
      split; [done|]. destruct r as [doc'|e]; [|done].
      intros k Hk. rewrite (Hr k Hk). unfold pushAt.
      destruct (doc !! field) as [[]|]; try done. by rewrite lookup_insert_ne.
    + rewrite bind_Err. intros [= <- <-]. split; [done|].
      destruct fieldElement; simpl in E; congruence.
Qed.

Lemma extractTerms_frame initialContent contentToIndex field t r :
  extractTerms initialContent contentToIndex field = (t, r) ->
  t = [] /\ match r with
            | Ok doc => forall k, k <> field -> doc !! k = contentToIndex !! k
            | Err e => e = TypeError
            end.
Proof.
  unfold extractTerms, lift.
  destruct (dataOf (get initialContent field)) as [data|e] eqn:E.
  - rewrite bind_pure. intros H. apply collect_frame in H as [-> Hr].
    split; [done|]. destruct r as [doc|e]; [|done].
    intros k Hk. rewrite (Hr k Hk). by rewrite lookup_insert_ne.
  - rewrite bind_Err. intros [= <- <-]. split; [done|].
    unfold dataOf in E. destruct (get initialContent field); try congruence.
    destruct (get o "data"); congruence.
Qed.

(** On a field the record carries as a taxonomy relation, the document gets
    the names of the terms, in the order of the relation. *)
Lemma extractTerms_relation initialContent contentToIndex field
    (relation : gmap string val) (terms : list (gmap string val)) :
  initialContent !! field = Some (VObject relation) ->
  relation !! "data" = Some (VArray (VObject <$> terms)) ->
  extractTerms initialContent contentToIndex field =
  ([], Ok (<[field := VArray ((fun term => get term "name") <$> terms)]> contentToIndex)).
Proof.
  intros Hf Hd. unfold extractTerms, dataOf, get, lift. rewrite Hf.
  cbn [from_option id]. rewrite Hd. cbn [from_option id]. rewrite bind_pure.
  rewrite (collect_names field terms _ []) by apply lookup_insert_eq.
  by rewrite insert_insert_eq.
Qed.

(** On a field the record does not carry, reading [data] throws. *)
Lemma extractTerms_absent initialContent contentToIndex field :
  initialContent !! field = None ->
  extractTerms initialContent contentToIndex field = ([], Err TypeError).
Proof. intros Hf. unfold extractTerms, dataOf, get, lift. by rewrite Hf. Qed.

Lemma forEach_extractTerms_frame initialContent (selected : list string) :
  forall contentToIndex t r,
    forEach (extractTerms initialContent) contentToIndex selected = (t, r) ->
    t = [] /\ match r with
              | Ok doc => forall k, k ∉ selected -> doc !! k = contentToIndex !! k
              | Err e => e = TypeError
              end.
Proof.
  induction selected as [|field selected IH]; intros contentToIndex t r.
  - simpl. by intros [= <- <-].
  - cbn [forEach].
    destruct (extractTerms initialContent contentToIndex field) as [t1 r1] eqn:E.
    apply extractTerms_frame in E as [-> Hr1].
    destruct r1 as [doc1|e1].
    + rewrite bind_pure. intros H. destruct (IH _ _ _ H) as [-> Hr].
      split; [done|]. destruct r as [doc|e]; [|done].
      intros k Hk. apply not_elem_of_cons in Hk as [Hk1 Hk2].
      rewrite (Hr k Hk2). by apply Hr1.
    + rewrite bind_Err. by intros [= <- <-].
Qed.

Lemma forEach_extractTerms_field initialContent (selected : list string) field
    (relation : gmap string val) (terms : list (gmap string val)) :
  NoDup selected -> field ∈ selected ->
  initialContent !! field = Some (VObject relation) ->
  relation !! "data" = Some (VArray (VObject <$> terms)) ->
  forall contentToIndex t doc,
    forEach (extractTerms initialContent) contentToIndex selected = (t, Ok doc) ->
    doc !! field = Some (VArray ((fun term => get term "name") <$> terms)).
Proof.
  intros Hnd Hin Hf Hd. induction Hnd as [|f selected Hnotin Hnd IH];
    intros contentToIndex t doc.
  { by apply not_elem_of_nil in Hin. }
  cbn [forEach]. intros H.
  apply bind_Ok_inv in H as (t1 & doc1 & t2 & H1 & H2 & _).
  apply elem_of_cons in Hin as [->|Hin].
  - rewrite (extractTerms_relation _ _ _ _ _ Hf Hd) in H1. injection H1 as _ <-.
    apply forEach_extractTerms_frame in H2 as [_ Hr].
    rewrite (Hr f Hnotin). apply lookup_insert_eq.
  - by eapply IH.
Qed.

Lemma forEach_extractTerms_absent initialContent (selected : list string) field :
  field ∈ selected -> initialContent !! field = None ->
  forall contentToIndex,
    forEach (extractTerms initialContent) contentToIndex selected
      = ([], Err TypeError).
Proof.
  intros Hin Hf. induction selected as [|f selected IH]; intros contentToIndex.
  { by apply not_elem_of_nil in Hin. }
  cbn [forEach].
  destruct (extractTerms initialContent contentToIndex f) as [t1 r1] eqn:E.
  pose proof (extractTerms_frame _ _ _ _ _ E) as [-> Hr1].
  apply elem_of_cons in Hin as [->|Hin].
  - rewrite (extractTerms_absent _ _ _ Hf) in E. by injection E as <-.
  - destruct r1 as [doc1|e1].
    + rewrite bind_pure. by apply IH.
    + by rewrite Hr1.
Qed.

Lemma tagsAndCategoriesFields_spec fields field :
  field ∈ tagsAndCategoriesFields fields <->
  field ∈ ["tags"; "categories"] /\ field ∈ fields.
Proof.
  unfold tagsAndCategoriesFields. rewrite !list_elem_of_In, filter_In.
  rewrite bool_decide_eq_true. by rewrite !list_elem_of_In.
Qed.

Lemma tagsAndCategoriesFields_NoDup fields : NoDup (tagsAndCategoriesFields fields).
Proof.
  unfold tagsAndCategoriesFields. apply NoDup_ListNoDup, List.NoDup_filter.
  apply NoDup_ListNoDup. apply NoDup_cons. split; [|apply NoDup_singleton].
  intros H. apply list_elem_of_singleton in H. discriminate H.
Qed.

Lemma objectID_not_taxonomy fields : "objectID" ∉ tagsAndCategoriesFields fields.
Proof.
  rewrite tagsAndCategoriesFields_spec. intros [H _].
  apply elem_of_cons in H as [H|H]; [discriminate H|].
  apply list_elem_of_singleton in H. discriminate H.
Qed.

(** C2.  Whenever the transformer returns documents for filter-bearing specs
    (specs that contain a colon), there is one document per record, in the
    order of the records, and its [objectID] is the record's [_id], whatever
    the plain fields selected, [objectID] included. *)
Theorem prepareContents_objectID (contents : list (gmap string val))
    fields fieldsWithFilters (t : list event) (docs : list (gmap string val)) :
  Forall (fun field => hasColon field = true) fieldsWithFilters ->
  prepareContents host contents fields fieldsWithFilters = (t, Ok docs) ->
  Forall2 (fun initialContent doc =>
             doc !! "objectID" = Some (get initialContent "_id"))
          contents docs.
Proof.
  intros Hcolon Hrun. unfold prepareContents in Hrun.
  apply mapArray_Ok_inv in Hrun.
  eapply Forall2_impl; [exact Hrun|].
  intros initialContent doc (t' & H). unfold prepareContent in H.
  apply bind_Ok_inv in H as (t1 & doc1 & t2 & H1 & H2 & _).
  rewrite (forEach_executeFilters_keeps _ _ "objectID" Hcolon eq_refl _ _ _ H2).
  apply forEach_extractTerms_frame in H1 as [_ Hr].
  rewrite (Hr "objectID" (objectID_not_taxonomy fields)).
  apply lookup_insert_eq.
Qed.

(** C3.  Whenever the transformer returns documents for filter-bearing
    specs, a record that carries a selected taxonomy field ([tags] or
    [categories]) as a relation over terms has its document among them, at
    the position of the record, and that document holds, under that field,
    the array of the names of those terms, in the order of the relation, and
    nothing else of the terms. *)
Theorem prepareContents_taxonomy (contents : list (gmap string val))
    fields fieldsWithFilters (t : list event) (docs : list (gmap string val))
    (i : nat) initialContent field
    (relation : gmap string val) (terms : list (gmap string val)) :
  Forall (fun field => hasColon field = true) fieldsWithFilters ->
  prepareContents host contents fields fieldsWithFilters = (t, Ok docs) ->
  contents !! i = Some initialContent ->
  field ∈ ["tags"; "categories"] -> field ∈ fields ->
  initialContent !! field = Some (VObject relation) ->
  relation !! "data" = Some (VArray (VObject <$> terms)) ->
  exists doc,
    docs !! i = Some doc
    /\ doc !! field = Some (VArray ((fun term => get term "name") <$> terms)).
Proof.
  intros Hcolon Hrun Hi Htax Hsel Hf Hd. unfold prepareContents in Hrun.
  apply mapArray_Ok_inv in Hrun.
  destruct (Forall2_lookup_l _ _ _ _ _ Hrun Hi) as (doc & Hdoc & t' & H).
  exists doc. split; [exact Hdoc|].
  unfold prepareContent in H.
  apply bind_Ok_inv in H as (t1 & doc1 & t2 & H1 & H2 & _).
  assert (Hreach : outOfReach field = true).
  { apply elem_of_cons in Htax as [->|Htax]; [done|].
    apply list_elem_of_singleton in Htax as ->. done. }
  rewrite (forEach_executeFilters_keeps _ _ field Hcolon Hreach _ _ _ H2).
  eapply forEach_extractTerms_field; [| |exact Hf|exact Hd|exact H1].
  - apply tagsAndCategoriesFields_NoDup.
  - by apply tagsAndCategoriesFields_spec.
Qed.

(** A record that lacks a selected taxonomy field stops the transformer
    with a [TypeError], before any spec is looked at. *)
Lemma prepareContent_missing_taxonomy fields fieldsWithFilters initialContent field :
  field ∈ ["tags"; "categories"] -> field ∈ fields ->
  initialContent !! field = None ->
  prepareContent host fields fieldsWithFilters (tagsAndCategoriesFields fields)
                 initialContent
  = ([], Err TypeError).
Proof.
  intros Htax Hsel Hf. unfold prepareContent.
  rewrite (forEach_extractTerms_absent _ _ field); [done| |done].
  by apply tagsAndCategoriesFields_spec.
Qed.

(** C4.  The page [aboutPage] has no [tags]; with [tags] among the plain
    fields the transformer throws instead of returning one document. *)
Theorem prepareContents_page_without_tags :
  prepareContents host [aboutPage] ["title"; "tags"] [] = ([], Err TypeError)
  /\ aboutPage !! "tags" = None.
Proof.
  split; [|done]. unfold prepareContents. cbn [mapArray].
  rewrite (prepareContent_missing_taxonomy _ _ _ "tags"); [done| | |done].
  - apply list_elem_of_here.
  - apply list_elem_of_further, list_elem_of_here.
Qed.

(** *** Specs on fields the record lacks *)


(** *** Specs on fields the record carries *)

Lemma runChain_app (before after : list FilterStep) (value : val) :
  runChain host (before ++ after) value =
  match runChain host before value with
  | Ok value' => runChain host after value'
  | Err e => Err e
  end.
Proof.
  revert value. induction before as [|step before IH]; intros value; [done|].
  simpl. by destruct (callFilter host step value).
Qed.


(** *** The [truncate] filter *)

(** [substring] past the end of the string: positions and lengths are cut
    at the end of the string. *)
Lemma substring_clip (s : string) :
  forall n m : nat,
    substring n m s =
    substring (Nat.min n (String.length s))
              (Nat.min (n + m) (String.length s) - Nat.min n (String.length s)) s.
Proof.
  induction s as [|c s IH]; intros n m.
  - simpl. rewrite !Nat.min_0_r. simpl. by destruct n, m.
  - destruct n as [|n].
    + destruct m as [|m]; [done|].
      cbn [String.length Nat.min Nat.add Nat.sub substring]. f_equal.
      rewrite (IH 0%nat m). cbn [Nat.min Nat.add]. by rewrite Nat.sub_0_r.
    + cbn [String.length Nat.min Nat.add substring].
      replace (Nat.min (S (n + m)) (S (String.length s)) - S (Nat.min n (String.length s)))%nat
        with (Nat.min (n + m) (String.length s) - Nat.min n (String.length s))%nat by lia.
      apply IH.
Qed.

(** C7.  On a string, with arguments the engine reads as the integers [n]
    and [m], [truncate] returns the substring that begins at position [n]
    (counted from the end of the string when [n] is negative) and has length
    [m]: the second argument is a length, not the index where the substring
    ends, so that [truncate,1,3] of [hello] is [ell]; and the spec
    [content:truncate,0,2] stores [he] under [contentTruncate] for the
    content [hello]. *)
Theorem truncate_substring (s a b : string) (n m : Z) :
  ToIntegerOrInfinity host (Some a) = Finite n ->
  ToIntegerOrInfinity host (Some b) = Finite m ->
  let size := Z.of_nat (String.length s) in
  let first := if (n <? 0)%Z then Z.max (size + n) 0 else n in
  truncate host (VString s) [a; b]
  = Ok (VString (substring (Z.to_nat first) (Z.to_nat m) s))
  /\ FILTER_FUNCTIONS host "truncate" = Some (truncate host)
  /\ truncate host (VString "hello") ["1"; "3"] = Ok (VString "ell")
  /\ (prepareContents host [aboutPage] [] ["content:truncate,0,2"]).2
     = Ok [ <["contentTruncate" := VString "he"]> {[ "objectID" := VString "about" ]} ].
Proof.
  intros Ha Hb size first. split; [|split; [done|split; [done|]]].
  - unfold truncate. cbn [lookup list_lookup]. do 2 f_equal.
    unfold substr. rewrite Ha, Hb. fold size.
    rewrite (substring_clip s (Z.to_nat first) (Z.to_nat m)).
    subst first. destruct (n <? 0)%Z eqn:E.
    + apply Z.ltb_lt in E. f_equal; lia.
    + apply Z.ltb_ge in E. f_equal; lia.
  - by vm_compute.
Qed.

End TransformerFacts.

(** ** The Sync Orchestrator *)

Section OrchestratorFacts.
Variable host : Host.

Lemma quiet_uploads (t : list event) : quiet t -> uploads t = [].
Proof.
  induction 1 as [|e t He _ IH]; [done|].
  unfold uploads in *. cbn [omap list_omap]. by destruct e.
Qed.

Lemma quiet_clears (t : list event) : quiet t -> clears t = 0%nat.
Proof.
  induction 1 as [|e t He _ IH]; [done|].
  unfold clears in *. cbn [List.filter]. by destruct e.
Qed.

Lemma quiet_failures (t : list event) : quiet t -> failures t = [].
Proof.
  induction 1 as [|e t He _ IH]; [done|].
  unfold failures in *. cbn [omap list_omap]. by destruct e as [| | | | | | |[]].
Qed.

Lemma quiet_clearedFirst (t s : list event) :
  quiet t -> clearedFirst (t ++ s) = clearedFirst s.
Proof. induction 1 as [|e t He _ IH]; [done|]. by destruct e. Qed.

Lemma uploads_app (t s : list event) : uploads (t ++ s) = uploads t ++ uploads s.
Proof. unfold uploads. apply omap_app. Qed.

Lemma clears_app (t s : list event) : clears (t ++ s) = (clears t + clears s)%nat.
Proof. unfold clears. by rewrite List.filter_app, length_app. Qed.

Lemma failures_app (t s : list event) : failures (t ++ s) = failures t ++ failures s.
Proof. unfold failures. apply omap_app. Qed.

Lemma clearedFirst_spec (t : list event) :
  clearedFirst t = true ->
  forall before content after,
    t = before ++ SaveObjects content :: after -> ClearObjects ∈ before.
Proof.
  induction t as [|e t IH]; intros H before content after Ht.
  - by destruct before.
  - destruct before as [|e' before].
    + injection Ht as -> _. discriminate H.
    + injection Ht as <- Ht.
      destruct e; simpl in H; try discriminate H;
        try (apply list_elem_of_further; by apply (IH H before content after)).
      apply list_elem_of_here.
Qed.

Lemma bind_quiet {A B} (m : M A) (f : A -> M B) :
  quiet m.1 -> (forall a, quiet (f a).1) -> quiet (bind m f).1.
Proof.
  intros Hm Hf. destruct m as [t [a|e]]; simpl in *; [|done].
  specialize (Hf a). destruct (f a). simpl in *. by apply Forall_app.
Qed.

Lemma forEach_quiet {A S} (body : S -> A -> M S) (xs : list A) :
  (forall acc x, quiet (body acc x).1) ->
  forall acc, quiet (forEach body acc xs).1.
Proof.
  intros Hbody. induction xs as [|x xs IH]; intros acc; [constructor|].
  cbn [forEach]. apply bind_quiet; [apply Hbody|apply IH].
Qed.

Lemma mapArray_quiet {A B} (f : A -> M B) (xs : list A) :
  (forall x, quiet (f x).1) -> quiet (mapArray f xs).1.
Proof.
  intros Hf. induction xs as [|x xs IH]; [constructor|].
  cbn [mapArray]. apply bind_quiet; [apply Hf|]. intros y.
  apply bind_quiet; [apply IH|]. intros ys. constructor.
Qed.

(** The transformer talks to the log only. *)
Lemma prepareContents_quiet contents fields fieldsWithFilters :
  quiet (prepareContents host contents fields fieldsWithFilters).1.
Proof.
  unfold prepareContents. apply mapArray_quiet. intros initialContent.
  unfold prepareContent. apply bind_quiet.
  - apply forEach_quiet. intros acc field.
    destruct (extractTerms initialContent acc field) as [t r] eqn:E.
    apply extractTerms_frame in E as [-> _]. constructor.
  - intros doc. apply forEach_quiet. intros acc field.
    rewrite executeFilters_spec. cbv zeta.
    destruct (hasOwnProperty initialContent _).
    + destruct (runChain host _ _); constructor.
    + destruct (ToString host _); repeat constructor.
Qed.

Lemma fetch_quiet (w : World) (config : Config) : quiet (fetch host w config).1.
Proof.
  unfold fetch.
  apply bind_quiet; [repeat constructor|intros _].
  apply bind_quiet; [constructor|intros _].
  apply bind_quiet; [repeat constructor|intros _].
  apply bind_quiet; [constructor|intros _].
  apply bind_quiet; [repeat constructor|intros _].
  destruct (List.length (Post w) =? 0)%nat.
  - apply bind_quiet; [repeat constructor|intros _].
    apply bind_quiet; [repeat constructor|intros _]. constructor.
  - apply bind_quiet; [apply prepareContents_quiet|intros posts].
    apply bind_quiet; [repeat constructor|intros _].
    apply bind_quiet; [apply prepareContents_quiet|intros pages]. constructor.
Qed.

(** The trace of the uploads. *)
Lemma upload_trace (w : World) (posts : nat)
    (chunkedContents : list (list (gmap string val))) :
  upload w posts chunkedContents =
  (Log Indexing :: (SaveObjects <$> chunkedContents)
     ++ match promiseAll w chunkedContents with
        | Err error => [Log (IndexError error); Callback (Some error)]
        | Ok _ => [Log (Indexed posts)]
        end,
   Ok tt).
Proof.
  unfold upload. cbn [emit bind].
  assert (H : forEach (fun (_ : unit) content => emit (SaveObjects content)) tt
                      chunkedContents
              = (SaveObjects <$> chunkedContents, Ok tt)).
  { induction chunkedContents as [|c cs IH]; [done|].
    cbn [forEach emit bind]. by rewrite IH. }
  rewrite H. by destruct (promiseAll w chunkedContents).
Qed.

Lemma uploads_SaveObjects (chunks : list (list (gmap string val))) :
  uploads (SaveObjects <$> chunks) = chunks.
Proof. induction chunks as [|c cs IH]; [done|]. unfold uploads in *. cbn. by rewrite IH. Qed.

Lemma clears_SaveObjects (chunks : list (list (gmap string val))) :
  clears (SaveObjects <$> chunks) = 0%nat.
Proof. induction chunks as [|c cs IH]; [done|]. unfold clears in *. cbn. by rewrite IH. Qed.

(** The trace from the clear step on. *)
Lemma clear_trace (w : World) (args : val) (posts : nat)
    (chunks : list (list (gmap string val))) :
  clear w args (upload w posts chunks) =
  (if truthy args && negb (truthy (member args "n")) then
     Log Clearing :: ClearObjects
       :: match clearObjects w with
          | Err error => [Log (ClearError error); Callback (Some error)]
          | Ok _ => Log Cleared :: (upload w posts chunks).1
          end
   else (upload w posts chunks).1,
   Ok tt).
Proof.
  unfold clear. rewrite upload_trace.
  destruct (truthy args && negb (truthy (member args "n"))); [|done].
  by destruct (clearObjects w).
Qed.

(** The run, stage by stage. *)
Lemma algoliaCommand_stages (fuel : nat) (w : World) (config : Config) (env : Env)
    (args : val) :
  algoliaCommand host fuel w config env args =
  match fetch host w config with
  | (t, Err e) => (t, Some (Err e))
  | (t, Ok None) => (t, Some (Ok tt))
  | (t, Ok (Some (posts, contents))) =>
      match splitIntoChunks fuel contents (algoliaChunkSize config) with
      | None => (t, None)
      | Some chunks =>
          let init := InitIndex (orElse (ALGOLIA_APP_ID env) (appId config))
                                (orElse (ALGOLIA_ADMIN_API_KEY env) (adminApiKey config))
                                (orElse (ALGOLIA_INDEX_NAME env) (indexName config)) in
          match client w with
          | Err e => (t ++ [init], Some (Err e))
          | Ok _ => (t ++ init :: (clear w args (upload w posts chunks)).1, Some (Ok tt))
          end
      end
  end.
Proof.
  unfold algoliaCommand.
  destruct (fetch host w config) as [t [[[posts contents]|]|e]]; try done.
  destruct (splitIntoChunks fuel contents (algoliaChunkSize config)) as [chunks|];
    [|done].
  cbv zeta. cbn [emit bind lift]. destruct (client w) as [u|e]; [|done].
  rewrite clear_trace. done.
Qed.

Lemma upload_uploads (w : World) (posts : nat)
    (chunks : list (list (gmap string val))) :
  uploads (upload w posts chunks).1 = chunks.
Proof.
  rewrite upload_trace. cbn [fst].
  change (uploads (Log Indexing :: ?l)) with (uploads l).
  rewrite uploads_app, uploads_SaveObjects.
  destruct (promiseAll w chunks); cbn; by rewrite app_nil_r.
Qed.

Lemma upload_clears (w : World) (posts : nat)
    (chunks : list (list (gmap string val))) :
  clears (upload w posts chunks).1 = 0%nat.
Proof.
  rewrite upload_trace. cbn [fst].
  change (clears (Log Indexing :: ?l)) with (clears l).
  rewrite clears_app, clears_SaveObjects.
  by destruct (promiseAll w chunks).
Qed.

(** Whatever [splitIntoChunks] returns, the chunks together are the array. *)
Lemma chunkLoop_concat {A} (k : Z) (fuel : nat) :
  forall (rest : list A) (made chunks : list (list A)),
    chunkLoop fuel rest made k = Some chunks ->
    List.concat chunks = List.concat made ++ rest.
Proof.
  induction fuel as [|fuel IH]; intros rest made chunks.
  - destruct rest; simpl; [|done]. intros [= <-]. by rewrite app_nil_r.
  - destruct rest as [|x xs].
    { simpl. intros [= <-]. by rewrite app_nil_r. }
    cbn [chunkLoop splice0]. intros H. rewrite (IH _ _ _ H).
    rewrite concat_app. cbn [List.concat]. rewrite app_nil_r, <- app_assoc.
    by rewrite take_drop.
Qed.

(** C8 (as the code has it).  Clearing is attempted exactly when an [args]
    object is passed and its [n] flag is unset.  Then no batch is sent before
    a clear request, and if that request fails no batch is sent at all.
    Otherwise (the flag set, or no [args] object) no clear request is ever
    sent.  And a run whose documents are fetched and transformed, with a
    positive chunk size, as many iterations as documents and a client that
    is built, does get that far: the documents are chunked; when clearing
    is attempted exactly one clear request is sent, and if it fails the error
    goes to the callback and the run is over; and when the clear step
    succeeded or was skipped, one batch is sent per chunk, in order, the
    batches together being all the transformed documents. *)
Theorem clear_then_upload (fuel : nat) (w : World) (config : Config) (env : Env)
    (args : val) :
  let outcome := algoliaCommand host fuel w config env args in
  let clearing := truthy args && negb (truthy (member args "n")) in
  (clearing = false -> clears outcome.1 = 0%nat)
  /\ (clearing = true ->
      forall before content after,
        outcome.1 = before ++ SaveObjects content :: after -> ClearObjects ∈ before)
  /\ (clearing = true -> forall e, clearObjects w = Err e -> uploads outcome.1 = [])
  /\ (forall t0 posts docs,
        fetch host w config = (t0, Ok (Some (posts, docs))) ->
        0 < algoliaChunkSize config ->
        (List.length docs <= fuel)%nat ->
        client w = Ok tt ->
        exists chunks,
          splitIntoChunks fuel docs (algoliaChunkSize config) = Some chunks
          /\ List.concat chunks = docs
          /\ (clearing = true ->
               clears outcome.1 = 1%nat
               /\ forall e, clearObjects w = Err e ->
                    failures outcome.1 = [e] /\ outcome.2 = Some (Ok tt))
          /\ (clearing = false \/ clearObjects w = Ok tt ->
              uploads outcome.1 = chunks)).
Proof.
  intros outcome clearing. subst outcome. rewrite algoliaCommand_stages.
  pose proof (fetch_quiet w config) as Hq.
  destruct (fetch host w config) as [t [[[posts contents]|]|e]]; cbn [fst] in Hq.
  2,3: (split; [|split; [|split]]; cbn [fst snd];
        [ intros _; by apply quiet_clears
        | intros _; apply clearedFirst_spec;
          rewrite <- (app_nil_r t), quiet_clearedFirst; done
        | intros _ e' _; by apply quiet_uploads
        | intros ? ? ? [=] ]).
  destruct (splitIntoChunks fuel contents (algoliaChunkSize config)) as [chunks|] eqn:Hs.
  2: { split; [|split; [|split]]; cbn [fst snd].
       - intros _. by apply quiet_clears.
       - intros _. apply clearedFirst_spec.
         rewrite <- (app_nil_r t), quiet_clearedFirst; done.
       - intros _ e' _. by apply quiet_uploads.
       - intros t0 posts' docs [= _ _ <-] Hk Hfuel _.
         destruct (chunkLoop_spec (algoliaChunkSize config) fuel Hk contents [] Hfuel)
           as (more & Hrun & _).
         unfold splitIntoChunks in Hs. by rewrite Hrun in Hs. }
  cbv zeta. rewrite clear_trace. fold clearing. cbn [fst snd].
  destruct (client w) as [[]|e] eqn:Hc; cbn [fst snd].
  2: { split; [|split; [|split]].
       - intros _. rewrite clears_app, (quiet_clears t Hq). done.
       - intros _. apply clearedFirst_spec. by rewrite quiet_clearedFirst.
       - intros _ e' _. rewrite uploads_app, (quiet_uploads t Hq). done.
       - intros ? ? ? _ _ _ [=]. }
  pose proof (upload_uploads w posts chunks) as Hu.
  pose proof (upload_clears w posts chunks) as Hn.
  set (sent := (upload w posts chunks).1) in *.
  split; [|split; [|split]].
  - intros ->. rewrite clears_app, (quiet_clears t Hq). exact Hn.
  - intros ->. apply clearedFirst_spec. by rewrite quiet_clearedFirst.
  - intros -> e' He. rewrite uploads_app, (quiet_uploads t Hq), He. done.
  - intros t0 posts' docs Hf _ _ _. injection Hf as _ <- <-.
    exists chunks. split; [done|]. split; [|split].
    + unfold splitIntoChunks in Hs. by rewrite (chunkLoop_concat _ _ _ _ _ Hs).
    + intros ->. split.
      * rewrite clears_app, (quiet_clears t Hq).
        destruct (clearObjects w); [|done].
        change (clears (?i :: Log Clearing :: ClearObjects :: Log Cleared :: sent))
          with (S (clears sent)).
        by rewrite Hn.
      * intros e' He. rewrite He. split; [|done].
        rewrite failures_app. by rewrite (quiet_failures t Hq).
    + intros Hgo. rewrite uploads_app, (quiet_uploads t Hq).
      destruct clearing; [|exact Hu].
      destruct Hgo as [Hgo|Hgo]; [done|]. rewrite Hgo. exact Hu.
Qed.

(** C9.  When generation and loading succeed and there is no published
    post, the run is over after one log line and one call of the callback
    with no error: the pages are not queried, let alone transformed, and
    nothing is sent to the index; and this holds for every amount of fuel,
    that is, the run always ends. *)
Theorem no_post_short_circuit (fuel : nat) (w : World) (config : Config) (env : Env)
    (args : val) :
  generate w = Ok tt -> load w = Ok tt -> Post w = [] ->
  let outcome := algoliaCommand host fuel w config env args in
  outcome = ([Generate; Load; Find "Post"; Log NoPost; Callback None], Some (Ok tt))
  /\ queried outcome.1 = ["Post"]
  /\ clears outcome.1 = 0%nat
  /\ uploads outcome.1 = []
  /\ failures outcome.1 = [].
Proof.
  intros Hg Hl Hp outcome.
  assert (H : outcome
              = ([Generate; Load; Find "Post"; Log NoPost; Callback None], Some (Ok tt))).
  { subst outcome. unfold algoliaCommand, fetch. by rewrite Hg, Hl, Hp. }
  by rewrite H.
Qed.

End OrchestratorFacts.

(** ** The claims at work *)

(** A post whose own [objectID] is selected, and a page. *)
Lemma prepareContents_objectID_witness :
  let m := prepareContents plainHost [helloPost; aboutPage]
                           ["title"; "objectID"] ["content:strip"] in
  Forall (fun field => hasColon field = true) ["content:strip"]
  /\ m = (m.1, Ok (returned m))
  /\ Forall2 (fun initialContent doc =>
                doc !! "objectID" = Some (get initialContent "_id"))
             [helloPost; aboutPage] (returned m).
Proof.
  intros m.
  assert (H1 : Forall (fun field => hasColon field = true) ["content:strip"])
    by (repeat constructor).
  assert (H2 : m = (m.1, Ok (returned m))) by (vm_compute; reflexivity).
  split; [exact H1|]. split; [exact H2|].
  exact (prepareContents_objectID plainHost _ _ _ _ _ H1 H2).
Defined.

(** The tags of [helloPost]. *)
Lemma prepareContents_taxonomy_witness :
  let m := prepareContents plainHost [helloPost] ["title"; "tags"] ["content:strip"] in
  let relation : gmap string val :=
    {[ "data" := VArray [VObject (term "Rocq" "rocq");
                         VObject (term "Search" "search")];
       "length" := VNumber 2 ]} in
  let terms := [term "Rocq" "rocq"; term "Search" "search"] in
  Forall (fun field => hasColon field = true) ["content:strip"]
  /\ m = (m.1, Ok (returned m))
  /\ helloPost !! "tags" = Some (VObject relation)
  /\ relation !! "data" = Some (VArray (VObject <$> terms))
  /\ exists doc,
       returned m !! 0%nat = Some doc
       /\ doc !! "tags" = Some (VArray [VString "Rocq"; VString "Search"]).
Proof.
  intros m relation terms.
  assert (H1 : Forall (fun field => hasColon field = true) ["content:strip"])
    by (repeat constructor).
  assert (H2 : m = (m.1, Ok (returned m))) by (vm_compute; reflexivity).
  assert (H3 : helloPost !! "tags" = Some (VObject relation)) by reflexivity.
  assert (H4 : relation !! "data" = Some (VArray (VObject <$> terms))) by reflexivity.
  split; [exact H1|]. split; [exact H2|]. split; [exact H3|]. split; [exact H4|].
  exact (prepareContents_taxonomy plainHost [helloPost] ["title"; "tags"]
           ["content:strip"] m.1 (returned m) 0 helloPost "tags" relation terms
           H1 H2 eq_refl
           (list_elem_of_here _ _) (list_elem_of_further _ _ _ (list_elem_of_here _ _))
           H3 H4).
Defined.



(** [hello] from position 1, three characters. *)
Lemma truncate_substring_witness :
  ToIntegerOrInfinity plainHost (Some "1") = Finite 1
  /\ ToIntegerOrInfinity plainHost (Some "3") = Finite 3
  /\ truncate plainHost (VString "hello") ["1"; "3"] = Ok (VString "ell")
  /\ (prepareContents plainHost [aboutPage] [] ["content:truncate,0,2"]).2
     = Ok [ <["contentTruncate" := VString "he"]> {[ "objectID" := VString "about" ]} ].
Proof.
  assert (H1 : ToIntegerOrInfinity plainHost (Some "1") = Finite 1) by reflexivity.
  assert (H2 : ToIntegerOrInfinity plainHost (Some "3") = Finite 3) by reflexivity.
  split; [exact H1|]. split; [exact H2|].
  destruct (truncate_substring plainHost "hello" "1" "3" 1 3 H1 H2)
    as (Hcall & _ & _ & Hrun).
  split; [exact Hcall|exact Hrun].
Defined.

(** One post and one page, chunks of one document, an [args] object without
    the flag. *)
Lemma clear_then_upload_witness :
  let w := calmWorld [helloPost] [aboutPage] in
  let outcome := algoliaCommand plainHost 2 w blogConfig noEnv (VObject ∅) in
  let fetched := fetch plainHost w blogConfig in
  let docs := match fetched.2 with Ok (Some (_, docs)) => docs | _ => [] end in
  fetched = (fetched.1, Ok (Some (1%nat, docs)))
  /\ 0 < algoliaChunkSize blogConfig
  /\ (List.length docs <= 2)%nat
  /\ client w = Ok tt
  /\ exists chunks,
       splitIntoChunks 2 docs (algoliaChunkSize blogConfig) = Some chunks
       /\ List.concat chunks = docs
       /\ clears outcome.1 = 1%nat
       /\ uploads outcome.1 = chunks.
Proof.
  intros w outcome fetched docs.
  assert (H1 : fetched = (fetched.1, Ok (Some (1%nat, docs))))
    by (vm_compute; reflexivity).
  assert (H2 : 0 < algoliaChunkSize blogConfig) by (vm_compute; reflexivity).
  assert (H3 : (List.length docs <= 2)%nat) by (vm_compute; lia).
  assert (H4 : client w = Ok tt) by reflexivity.
  split; [exact H1|]. split; [exact H2|]. split; [exact H3|]. split; [exact H4|].
  destruct (clear_then_upload plainHost 2 w blogConfig noEnv (VObject ∅))
    as (_ & _ & _ & Hreach).
  destruct (Hreach _ _ _ H1 H2 H3 H4) as (chunks & Hsplit & Hcat & Hclear & Hsend).
  exists chunks. split; [exact Hsplit|]. split; [exact Hcat|].
  destruct (Hclear eq_refl) as (Hone & _).
  split; [exact Hone|exact (Hsend (or_intror eq_refl))].
Defined.

(** No [args] object: the flag is not set, two batches are sent, and no
    clear request precedes them. *)
Lemma upload_without_clear_or_flag :
  let t := (algoliaCommand plainHost 2 (calmWorld [helloPost] [aboutPage])
                           blogConfig noEnv VUndefined).1 in
  truthy (member VUndefined "n") = false
  /\ clears t = 0%nat
  /\ List.length (uploads t) = 2%nat.
Proof. by vm_compute. Qed.

(** A site without posts. *)
Lemma no_post_short_circuit_witness :
  let w := calmWorld [] [aboutPage] in
  generate w = Ok tt /\ load w = Ok tt /\ Post w = []
  /\ algoliaCommand plainHost 0 w blogConfig noEnv (VObject ∅)
     = ([Generate; Load; Find "Post"; Log NoPost; Callback None], Some (Ok tt)).
Proof.
  intros w. split; [reflexivity|]. split; [reflexivity|]. split; [reflexivity|].
  exact (proj1 (no_post_short_circuit plainHost 0 w blogConfig noEnv (VObject ∅)
                  eq_refl eq_refl eq_refl)).
Defined.

(** * Further properties of the module *)

(** ** [pick] *)

Lemma pick_fold (object : gmap string val) (attributes : list string) (k : string) :
  forall newObject : gmap string val,
    foldl (fun newObject attribute =>
             if hasOwnProperty object attribute
             then <[attribute := get object attribute]> newObject
             else newObject)
          newObject attributes !! k
    = if bool_decide (k ∈ attributes /\ is_Some (object !! k))
      then object !! k
      else newObject !! k.
Proof.
  induction attributes as [|a attributes IH]; intros newObject.
  - cbn [foldl]. rewrite bool_decide_eq_false_2; [done|].
    intros [H _]. by apply not_elem_of_nil in H.
  - cbn [foldl]. rewrite IH. clear IH.
    destruct (decide (k ∈ attributes /\ is_Some (object !! k))) as [Hin|Hout].
    + rewrite !bool_decide_eq_true_2; [done| |done].
      destruct Hin as [Hin Hk]. split; [by apply list_elem_of_further|done].
    + rewrite (bool_decide_eq_false_2 _ Hout).
      unfold hasOwnProperty, get.
      destruct (decide (k = a)) as [->|Hne].
      * destruct (object !! a) as [v|] eqn:Ha.
        -- rewrite bool_decide_eq_true_2 by eauto.
           rewrite bool_decide_eq_true_2.
           ++ simpl. apply lookup_insert_eq.
           ++ split; [apply list_elem_of_here|eauto].
        -- rewrite (bool_decide_eq_false_2 (is_Some None)) by (intros [? [=]]).
           rewrite bool_decide_eq_false_2; [done|]. intros [_ [? [=]]].
      * rewrite (bool_decide_eq_false_2 (k ∈ a :: attributes /\ _)).
        -- destruct (bool_decide (is_Some (object !! a))); [|done].
           by rewrite lookup_insert_ne.
        -- intros [Hin Hk]. apply Hout. split; [|done].
           apply elem_of_cons in Hin as [?|?]; done.
Qed.

Lemma pick_lookup (object : gmap string val) (attributes : list string) (k : string) :
  pick object attributes !! k
  = if bool_decide (k ∈ attributes) then object !! k else None.
Proof.
  unfold pick. rewrite pick_fold. rewrite lookup_empty.
  destruct (decide (k ∈ attributes)) as [Hin|Hout].
  - rewrite (bool_decide_eq_true_2 _ Hin).
    destruct (object !! k) as [v|] eqn:E.
    + rewrite bool_decide_eq_true_2; [done|]. split; [done|eauto].
    + rewrite bool_decide_eq_false_2; [done|]. intros [_ [? [=]]].
  - rewrite (bool_decide_eq_false_2 _ Hout).
    rewrite bool_decide_eq_false_2; [done|]. by intros [? _].
Qed.


(** ** The Field Spec Parser *)

(** X2.  [getBasicFields] and [getFieldsWithFilters] split the configured
    specs in two: the first keeps exactly the specs without a colon, the
    second exactly those with one, both in the configured order, and
    together they are the configured specs again (no spec lost, none
    selected twice). *)
Theorem field_specs_partition (fields : list string) :
  (forall field, field ∈ getBasicFields fields
                 <-> field ∈ fields /\ hasColon field = false)
  /\ (forall field, field ∈ getFieldsWithFilters fields
                    <-> field ∈ fields /\ hasColon field = true)
  /\ sublist (getBasicFields fields) fields
  /\ sublist (getFieldsWithFilters fields) fields
  /\ getBasicFields fields ++ getFieldsWithFilters fields ≡ₚ fields
  /\ getFieldsWithFilters (getBasicFields fields) = []
  /\ getBasicFields (getFieldsWithFilters fields) = [].
Proof.
  unfold getBasicFields, getFieldsWithFilters.
  split; [|split; [|split; [|split; [|split; [|split]]]]].
  - intros field. rewrite !list_elem_of_In, filter_In, negb_true_iff. done.
  - intros field. rewrite !list_elem_of_In, filter_In. done.
  - induction fields as [|f fields IH]; [constructor|]. simpl.
    destruct (hasColon f); simpl; by constructor.
  - induction fields as [|f fields IH]; [constructor|]. simpl.
    destruct (hasColon f); simpl; by constructor.
  - induction fields as [|f fields IH]; [done|]. simpl.
    destruct (hasColon f); simpl.
    + rewrite <- Permutation_middle. by constructor.
    + by constructor.
  - induction fields as [|f fields IH]; [done|]. simpl.
    destruct (hasColon f) eqn:E; simpl; [done|]. by rewrite E.
  - induction fields as [|f fields IH]; [done|]. simpl.
    destruct (hasColon f) eqn:E; simpl; [|done]. by rewrite E.
Qed.

Lemma concat_cons (sep x : string) (parts : list string) :
  parts <> [] ->
  String.concat sep (x :: parts) = x +:+ sep +:+ String.concat sep parts.
Proof. by destruct parts. Qed.

Lemma split_concat (sep : ascii) (s : string) :
  String.concat (String sep EmptyString) (split sep s) = s.
Proof.
  induction s as [|c s IH]; [done|]. cbn [split].
  destruct (split_cons sep s) as (piece & pieces & Hs).
  destruct (Ascii.eqb c sep) eqn:E.
  - apply Ascii.eqb_eq in E as ->.
    rewrite concat_cons by (by rewrite Hs). by rewrite IH.
  - rewrite Hs in *. destruct pieces as [|piece' pieces].
    + cbn [String.concat] in *. by rewrite IH.
    + rewrite concat_cons by done. rewrite concat_cons in IH by done.
      change (String c piece +:+ ?r) with (String c (piece +:+ r)).
      by rewrite IH.
Qed.

Lemma split_pieces (field : string) :
  Forall (fun piece => hasColon piece = false) (split ":" field).
Proof.
  induction field as [|c rest IH]; [by repeat constructor|]. cbn [split].
  destruct (Ascii.eqb c ":") eqn:E.
  - by constructor.
  - destruct (split_cons ":" rest) as (piece & pieces & Hs). rewrite Hs in *.
    apply Forall_cons in IH as [Hp Hps]. constructor; [|done].
    simpl. by rewrite E.
Qed.

Lemma split_no_colon (field : string) :
  hasColon field = false -> split ":" field = [field].
Proof.
  induction field as [|c rest IH]; [done|]. simpl.
  destruct (Ascii.eqb c ":"); [done|]. simpl. intros H. by rewrite (IH H).
Qed.

(** X3.  Splitting a spec on its colons loses nothing: the pieces joined by
    colons are the spec, no piece contains a colon, and a spec is a single
    piece exactly when it has no colon (it then names a field and no
    filter). *)
Theorem field_spec_split_lossless (field : string) :
  String.concat ":" (split ":" field) = field
  /\ Forall (fun piece => hasColon piece = false) (split ":" field)
  /\ (hasColon field = false <-> split ":" field = [field])
  /\ (hasColon field = false ->
      parseFieldSpec field = {| fieldName := field; filters := [] |}).
Proof.
  split; [apply (split_concat ":")|]. split; [apply split_pieces|]. split.
  - split; [apply split_no_colon|]. intros H.
    pose proof (split_pieces field) as Hp. rewrite H in Hp.
    by rewrite Forall_singleton in Hp.
  - intros H. unfold parseFieldSpec. by rewrite (split_no_colon _ H).
Qed.

(** ** The Content Transformer, further *)

Section TransformerMore.
Variable host : Host.
Implicit Types (initialContent contentToIndex doc : gmap string val).
Implicit Types (field key : string) (fields fieldsWithFilters : list string).

Lemma executeFilters_frame initialContent contentToIndex field t doc key :
  executeFilters host initialContent contentToIndex field = (t, Ok doc) ->
  key <> synthesizedKey (parseFieldSpec field) ->
  doc !! key = contentToIndex !! key.
Proof.
  rewrite executeFilters_spec. cbv zeta. intros H Hne.
  destruct (hasOwnProperty initialContent _).
  - destruct (runChain host _ _); [|done]. injection H as _ <-.
    by rewrite lookup_insert_ne.
  - destruct (ToString host _); [|done]. by injection H as _ <-.
Qed.

Lemma forEach_executeFilters_frame initialContent fieldsWithFilters key :
  key ∉ keysOf fieldsWithFilters ->
  forall contentToIndex t doc,
    forEach (executeFilters host initialContent) contentToIndex fieldsWithFilters
      = (t, Ok doc) ->
    doc !! key = contentToIndex !! key.
Proof.
  induction fieldsWithFilters as [|field specs IH]; intros Hkey contentToIndex t doc.
  - simpl. by intros [= _ <-].
  - cbn [forEach]. intros H.
    apply bind_Ok_inv in H as (t1 & doc1 & t2 & H1 & H2 & _).
    cbn [fmap list_fmap] in Hkey. apply not_elem_of_cons in Hkey as [Hne Hkey].
    rewrite (IH Hkey _ _ _ H2). by eapply executeFilters_frame.
Qed.


Lemma FILTER_FUNCTIONS_unknown (n : string) :
  n ∉ callableNames -> FILTER_FUNCTIONS host n = None.
Proof.
  intros Hn. destruct (FILTER_FUNCTIONS host n) as [f|] eqn:E; [|done].
  exfalso. apply Hn, (FILTER_FUNCTIONS_callable host). by rewrite E.
Qed.

Lemma chain_stops initialContent contentToIndex field
    (before after : list FilterStep) (step : FilterStep) (v : val) (e : exn) :
  hasOwnProperty initialContent (fieldName (parseFieldSpec field)) = true ->
  filters (parseFieldSpec field) = before ++ step :: after ->
  runChain host before (get initialContent (fieldName (parseFieldSpec field))) = Ok v ->
  callFilter host step v = Err e ->
  executeFilters host initialContent contentToIndex field = ([], Err e).
Proof.
  intros Hc Hf Hb He. rewrite executeFilters_spec. cbv zeta.
  rewrite Hc, Hf, runChain_app, Hb. cbn [runChain]. by rewrite He.
Qed.

Lemma record_stops fields selected later initialContent field :
  (forall contentToIndex,
     executeFilters host initialContent contentToIndex field = ([], Err TypeError)) ->
  (prepareContent host fields (field :: later) selected initialContent).2
  = Err TypeError.
Proof.
  intros Hstep. unfold prepareContent. rewrite bind_snd.
  destruct (forEach (extractTerms initialContent) _ selected) as [t r] eqn:E.
  apply forEach_extractTerms_frame in E as [_ Hr]. cbn [snd].
  destruct r as [doc|e]; [|by rewrite Hr].
  cbn [forEach]. by rewrite Hstep.
Qed.

(** X5.  A step of a chain that cannot be run ends the transformation: when
    the steps before it have run, a filter name that the table does not
    resolve, or [truncate] reached with a value that is not a string, throws
    a [TypeError]; nothing is stored for the spec, and with the spec first
    in the list neither this record nor any record after it yields a
    document. *)
Theorem failing_step_is_fatal initialContent field
    (before after : list FilterStep) (step : FilterStep) (v : val) :
  hasOwnProperty initialContent (fieldName (parseFieldSpec field)) = true ->
  filters (parseFieldSpec field) = before ++ step :: after ->
  runChain host before (get initialContent (fieldName (parseFieldSpec field))) = Ok v ->
  name step ∉ callableNames
  \/ (name step = "truncate" /\ forall s, v <> VString s) ->
  (forall contentToIndex,
     executeFilters host initialContent contentToIndex field = ([], Err TypeError))
  /\ (forall fields later (others : list (gmap string val)),
        (prepareContents host (initialContent :: others) fields (field :: later)).2
        = Err TypeError).
Proof.
  intros Hc Hf Hb Hbad.
  assert (He : callFilter host step v = Err TypeError).
  { unfold callFilter. destruct Hbad as [Hn|[Hn Hv]].
    - by rewrite (FILTER_FUNCTIONS_unknown _ Hn).
    - rewrite Hn. cbn. destruct v; try done. by destruct (Hv s). }
  assert (Hstep : forall contentToIndex,
    executeFilters host initialContent contentToIndex field = ([], Err TypeError)).
  { intros contentToIndex. by eapply chain_stops. }
  split; [exact Hstep|].
  intros fields later others. unfold prepareContents. cbn [mapArray].
  rewrite bind_snd. by rewrite (record_stops _ _ _ _ _ Hstep).
Qed.

(** X6.  The transformer copies nothing that was not asked for: every key of
    a document it returns is [objectID], one of the plain fields, or the
    key synthesized for one of the specs. *)
Theorem output_keys_are_selected (contents : list (gmap string val))
    fields fieldsWithFilters (t : list event) (docs : list (gmap string val)) :
  prepareContents host contents fields fieldsWithFilters = (t, Ok docs) ->
  Forall (fun doc =>
            forall key, is_Some (doc !! key) ->
              key = "objectID" \/ key ∈ fields \/ key ∈ keysOf fieldsWithFilters)
         docs.
Proof.
  intros Hrun. unfold prepareContents in Hrun. apply mapArray_Ok_inv in Hrun.
  apply Forall_forall. intros doc Hdoc.
  apply list_elem_of_lookup in Hdoc as [i Hi].
  destruct (Forall2_lookup_r _ _ _ _ _ Hrun Hi) as (initialContent & _ & t' & H).
  intros key Hkey. unfold prepareContent in H.
  apply bind_Ok_inv in H as (t1 & doc1 & t2 & H1 & H2 & _).
  destruct (decide (key = "objectID")) as [|Hid]; [by left|]. right.
  destruct (decide (key ∈ keysOf fieldsWithFilters)) as [|Hspec]; [by right|]. left.
  rewrite (forEach_executeFilters_frame _ _ _ Hspec _ _ _ H2) in Hkey.
  apply forEach_extractTerms_frame in H1 as [_ Hr].
  destruct (decide (key ∈ tagsAndCategoriesFields fields)) as [Htax|Htax].
  { by apply tagsAndCategoriesFields_spec in Htax as [_ ?]. }
  rewrite (Hr key Htax), lookup_insert_ne, pick_lookup in Hkey by done.
  destruct (decide (key ∈ fields)) as [|Hout]; [done|].
  rewrite (bool_decide_eq_false_2 _ Hout) in Hkey. by destruct Hkey.
Qed.

(** X7.  When the transformer returns documents, the document of a record
    is among them, at the position of the record, and a plain field reaches
    it as the record has it: with the value of the record when the record
    carries it, and not at all (no default) when it does not.  This is so
    for a field that names a property (not [__proto__]), that is not
    [objectID], [tags] or [categories], and that no spec synthesizes. *)
Theorem plain_fields_are_copied (contents : list (gmap string val))
    fields fieldsWithFilters (t : list event) (docs : list (gmap string val))
    (i : nat) initialContent key :
  prepareContents host contents fields fieldsWithFilters = (t, Ok docs) ->
  contents !! i = Some initialContent ->
  key ∈ fields ->
  key ∉ ["__proto__"; "objectID"; "tags"; "categories"] ->
  key ∉ keysOf fieldsWithFilters ->
  exists doc, docs !! i = Some doc /\ doc !! key = initialContent !! key.
Proof.
  intros Hrun Hi Hsel Hplain Hspec. unfold prepareContents in Hrun.
  apply mapArray_Ok_inv in Hrun.
  destruct (Forall2_lookup_l _ _ _ _ _ Hrun Hi) as (doc & Hdoc & t' & H).
  exists doc. split; [exact Hdoc|].
  unfold prepareContent in H.
  apply bind_Ok_inv in H as (t1 & doc1 & t2 & H1 & H2 & _).
  rewrite (forEach_executeFilters_frame _ _ _ Hspec _ _ _ H2).
  apply forEach_extractTerms_frame in H1 as [_ Hr].
  apply not_elem_of_cons in Hplain as [_ Hplain].
  apply not_elem_of_cons in Hplain as [Hid Hplain].
  rewrite Hr.
  - rewrite lookup_insert_ne by done. rewrite pick_lookup.
    by rewrite (bool_decide_eq_true_2 _ Hsel).
  - intros Htax. by apply tagsAndCategoriesFields_spec in Htax as [? _].
Qed.

Lemma bind_ret_r {A} (m : M A) : bind m (fun a => ret a) = m.
Proof. destruct m as [t [a|e]]; simpl; [|done]. by rewrite app_nil_r. Qed.

Lemma mapArray_app {A B} (f : A -> M B) (xs ys : list A) :
  mapArray f (xs ++ ys)
  = bind (mapArray f xs)
         (fun dx => bind (mapArray f ys) (fun dy => ret (dx ++ dy))).
Proof.
  induction xs as [|x xs IH].
  - cbn [app mapArray]. unfold ret at 1. rewrite bind_pure.
    symmetry. apply bind_ret_r.
  - cbn [app mapArray]. rewrite IH. clear IH.
    destruct (f x) as [t1 [y|e]]; [|done].
    destruct (mapArray f xs) as [t2 [dx|e]]; [|done].
    destruct (mapArray f ys) as [t3 [dy|e]]; simpl;
      by rewrite ?app_nil_r, ?app_assoc.
Qed.

Lemma mapArray_length {A B} (f : A -> M B) (xs : list A) t (ys : list B) :
  mapArray f xs = (t, Ok ys) -> List.length ys = List.length xs.
Proof.
  intros H. apply mapArray_Ok_inv in H. symmetry. by eapply Forall2_length.
Qed.

(** X8.  The transformer works record by record: transforming two sequences
    one after the other and appending the documents is transforming their
    concatenation (the warnings of the first come first, and a throw in the
    first keeps the second from being looked at); no record gives no
    document and no event; and documents, when returned, are as many as the
    records. *)
Theorem transformer_is_per_record (xs ys : list (gmap string val))
    fields fieldsWithFilters :
  prepareContents host (xs ++ ys) fields fieldsWithFilters
  = bind (prepareContents host xs fields fieldsWithFilters)
         (fun dx => bind (prepareContents host ys fields fieldsWithFilters)
                         (fun dy => ret (dx ++ dy)))
  /\ prepareContents host [] fields fieldsWithFilters = ([], Ok [])
  /\ (forall t docs,
        prepareContents host xs fields fieldsWithFilters = (t, Ok docs) ->
        List.length docs = List.length xs).
Proof.
  split; [apply mapArray_app|]. split; [done|].
  intros t docs. apply mapArray_length.
Qed.

Lemma bind_Forall {A B} (Q : event -> Prop) (m : M A) (f : A -> M B) :
  Forall Q m.1 -> (forall a, Forall Q (f a).1) -> Forall Q (bind m f).1.
Proof.
  intros Hm Hf. destruct m as [t [a|e]]; simpl in *; [|done].
  specialize (Hf a). destruct (f a). simpl in *. by apply Forall_app.
Qed.

Lemma forEach_Forall {A S} (Q : event -> Prop) (body : S -> A -> M S) (xs : list A) :
  (forall acc x, x ∈ xs -> Forall Q (body acc x).1) ->
  forall acc, Forall Q (forEach body acc xs).1.
Proof.
  induction xs as [|x xs IH]; intros Hbody acc; [constructor|].
  cbn [forEach]. apply bind_Forall.
  - apply Hbody, list_elem_of_here.
  - apply IH. intros acc' x' Hx. by apply Hbody, list_elem_of_further.
Qed.

Lemma mapArray_Forall {A B} (Q : event -> Prop) (f : A -> M B) (xs : list A) :
  (forall x, x ∈ xs -> Forall Q (f x).1) -> Forall Q (mapArray f xs).1.
Proof.
  induction xs as [|x xs IH]; intros Hf; [constructor|].
  cbn [mapArray]. apply bind_Forall; [apply Hf, list_elem_of_here|]. intros y.
  apply bind_Forall; [|intros ys; constructor].
  apply IH. intros x' Hx. by apply Hf, list_elem_of_further.
Qed.

Lemma prepareContents_warnings (contents : list (gmap string val))
    fields fieldsWithFilters :
  Forall (fun e =>
            exists initialContent field title,
              e = Log (MissingField title (fieldName (parseFieldSpec field)))
              /\ initialContent ∈ contents
              /\ field ∈ fieldsWithFilters
              /\ hasOwnProperty initialContent (fieldName (parseFieldSpec field)) = false
              /\ ToString host (get initialContent "title") = Ok title)
         (prepareContents host contents fields fieldsWithFilters).1.
Proof.
  unfold prepareContents. apply mapArray_Forall. intros initialContent Hin.
  unfold prepareContent. apply bind_Forall.
  - apply forEach_Forall. intros acc field _.
    destruct (extractTerms initialContent acc field) as [t r] eqn:E.
    apply extractTerms_frame in E as [-> _]. constructor.
  - intros doc. apply forEach_Forall. intros acc field Hfield.
    rewrite executeFilters_spec. cbv zeta.
    destruct (hasOwnProperty initialContent _) eqn:Hown.
    + destruct (runChain host _ _); constructor.
    + destruct (ToString host _) as [title|e] eqn:Ht; [|constructor].
      repeat constructor. by exists initialContent, field, title.
Qed.

(** X9.  All the transformer does to the outside is warn about missing
    fields: every event it causes is such a warning, written for one of the
    records, carrying its title, and for one of the specs, whose field that
    record lacks. *)
Theorem transformer_only_warns (contents : list (gmap string val))
    fields fieldsWithFilters :
  Forall (fun e =>
            exists initialContent field title,
              e = Log (MissingField title (fieldName (parseFieldSpec field)))
              /\ initialContent ∈ contents
              /\ field ∈ fieldsWithFilters
              /\ hasOwnProperty initialContent (fieldName (parseFieldSpec field)) = false
              /\ ToString host (get initialContent "title") = Ok title)
         (prepareContents host contents fields fieldsWithFilters).1.
Proof. apply prepareContents_warnings. Qed.

(** *** [truncate], further *)

Lemma substring_length (s : string) :
  forall n m : nat,
    String.length (substring n m s) = Nat.min m (String.length s - n).
Proof.
  induction s as [|c s IH]; intros n m.
  - destruct n, m; simpl; lia.
  - destruct n as [|n].
    + destruct m as [|m]; [done|]. cbn [substring String.length].
      rewrite IH. cbn [Nat.sub Nat.min]. by rewrite Nat.sub_0_r.
    + cbn [substring String.length Nat.sub]. apply IH.
Qed.

Lemma substring_whole (s : string) : substring 0 (String.length s) s = s.
Proof. induction s as [|c s IH]; [done|]. simpl. by rewrite IH. Qed.

(** X10.  Without its second argument [truncate] cuts nothing at the end:
    with a start the engine reads as the integer [n] it returns the string
    from that position on (from the end when [n] is negative), and with no
    argument at all it returns the string as it is. *)
Theorem truncate_without_length (s a : string) (n : Z) :
  ToIntegerOrInfinity host (Some a) = Finite n ->
  let size := Z.of_nat (String.length s) in
  let first := if (n <? 0)%Z then Z.max (size + n) 0 else n in
  truncate host (VString s) [a]
  = Ok (VString (substring (Z.to_nat first) (String.length s) s))
  /\ truncate host (VString s) [] = Ok (VString s).
Proof.
  intros Ha size first. split.
  - unfold truncate. cbn [lookup list_lookup]. do 2 f_equal.
    unfold substr. rewrite Ha. fold size.
    rewrite (substring_clip s (Z.to_nat first) (String.length s)).
    subst first. destruct (n <? 0)%Z eqn:E.
    + apply Z.ltb_lt in E. f_equal; lia.
    + apply Z.ltb_ge in E. f_equal; lia.
  - unfold truncate, substr. cbn [lookup list_lookup ToIntegerOrInfinity].
    cbn [Z.ltb Z.compare]. rewrite Z.min_l by lia. cbn [Z.add].
    rewrite Z.min_id, Z.sub_0_r, Nat2Z.id. cbn [Z.to_nat].
    by rewrite substring_whole.
Qed.

(** X11.  What [truncate] returns is never longer than asked for and never
    longer than what the string has left after the start: with arguments
    read as the integers [n] and [m], the result has
    min (max m 0) (size - start) characters, where the start is [n] cut to
    the string (counted from the end when negative). *)
Theorem truncate_length (s a b : string) (n m : Z) :
  ToIntegerOrInfinity host (Some a) = Finite n ->
  ToIntegerOrInfinity host (Some b) = Finite m ->
  let size := Z.of_nat (String.length s) in
  let start := if (n <? 0)%Z then Z.max (size + n) 0 else Z.min n size in
  exists r,
    truncate host (VString s) [a; b] = Ok (VString r)
    /\ Z.of_nat (String.length r) = Z.min (Z.max m 0) (size - start)
    /\ Z.of_nat (String.length r) <= Z.max m 0
    /\ (String.length r <= String.length s)%nat.
Proof.
  intros Ha Hb size start. eexists. split; [reflexivity|].
  cbn [lookup list_lookup]. unfold substr. rewrite Ha, Hb. fold size. rewrite substring_length.
  subst start. destruct (n <? 0)%Z eqn:E.
  - apply Z.ltb_lt in E. lia.
  - apply Z.ltb_ge in E. lia.
Qed.

End TransformerMore.

(** ** The Batcher, further *)

Section BatcherMore.
Context {A : Type}.
Implicit Types (array rest : list A) (chunks made : list (list A)).

Lemma ceil_step (k L : Z) :
  0 < k -> 0 < L ->
  (L + k - 1) / k = 1 + (L - Z.min k L + k - 1) / k.
Proof.
  intros Hk HL. destruct (Z.le_gt_cases L k) as [Hle|Hgt].
  - rewrite Z.min_r by lia.
    replace (L - L + k - 1) with (k - 1) by lia.
    rewrite (Z.div_small (k - 1) k) by lia.
    symmetry. apply (Z.div_unique_pos _ _ 1 (L - 1)); lia.
  - rewrite Z.min_l by lia.
    replace (L + k - 1) with ((L - k + k - 1) + 1 * k) by lia.
    rewrite Z.div_add by lia. lia.
Qed.

Lemma chunkLoop_count (k : Z) (fuel : nat) :
  0 < k ->
  forall rest made chunks,
    chunkLoop fuel rest made k = Some chunks ->
    Z.of_nat (List.length chunks)
    = Z.of_nat (List.length made) + (Z.of_nat (List.length rest) + k - 1) / k.
Proof.
  intros Hk. induction fuel as [|fuel IH]; intros rest made chunks.
  - destruct rest; cbn [chunkLoop]; [|done]. intros [= <-].
    rewrite Z.div_small by (cbn [List.length]; lia). lia.
  - destruct rest as [|x xs].
    { cbn [chunkLoop]. intros [= <-].
      rewrite Z.div_small by (cbn [List.length]; lia). lia. }
    cbn [chunkLoop splice0]. intros H. rewrite (IH _ _ _ H).
    rewrite length_app, length_drop. cbn [List.length].
    rewrite (ceil_step k (Z.of_nat (S (List.length xs)))) by lia.
    replace (Z.of_nat (S (List.length xs) - Z.to_nat k))
      with (Z.of_nat (S (List.length xs)) - Z.min k (Z.of_nat (S (List.length xs))))
      by lia.
    lia.
Qed.

(** X12.  For a positive chunk size [k], and as many iterations as the
    array has elements, [splitIntoChunks] returns, and the chunks it returns
    are as many as the length of the array divided by [k], rounded up: that
    many batches go to the index. *)
Theorem chunk_count array (k : Z) (fuel : nat) :
  0 < k -> (List.length array <= fuel)%nat ->
  exists chunks,
    splitIntoChunks fuel array k = Some chunks
    /\ Z.of_nat (List.length chunks) = (Z.of_nat (List.length array) + k - 1) / k.
Proof.
  intros Hk Hfuel.
  destruct (chunkLoop_spec k fuel Hk array [] Hfuel) as (chunks & Hrun & _).
  cbn [app] in Hrun. exists chunks. split; [exact Hrun|].
  by rewrite (chunkLoop_count k fuel Hk _ _ _ Hrun).
Qed.

Lemma chunkLoop_stuck (k : Z) (fuel : nat) :
  k <= 0 ->
  forall rest made, rest <> [] -> chunkLoop fuel rest made k = None.
Proof.
  intros Hk. induction fuel as [|fuel IH]; intros rest made Hne.
  - by destruct rest.
  - destruct rest as [|x xs]; [done|]. cbn [chunkLoop splice0].
    replace (Z.to_nat k) with 0%nat by lia. cbn [take drop]. by apply IH.
Qed.

(** X13.  With a chunk size of zero or less, [splice] removes nothing, and
    on an array that is not empty the loop never ends: no number of
    iterations makes [splitIntoChunks] return.  (The empty array is returned
    for at once, whatever the chunk size.) *)
Theorem nonpositive_chunk_size_never_returns array (k : Z) :
  k <= 0 -> array <> [] ->
  (forall fuel, splitIntoChunks fuel array k = None)
  /\ (forall fuel k', splitIntoChunks fuel (@nil A) k' = Some []).
Proof.
  intros Hk Hne. split.
  - intros fuel. unfold splitIntoChunks. by apply chunkLoop_stuck.
  - intros fuel k'. by destruct fuel.
Qed.

Lemma chunkLoop_single (k : Z) (fuel : nat) array made :
  0 < k -> array <> [] -> Z.of_nat (List.length array) <= k ->
  chunkLoop (S fuel) array made k = Some (made ++ [array]).
Proof.
  intros Hk Hne Hlen. destruct array as [|x xs]; [done|].
  cbn [chunkLoop splice0].
  rewrite take_ge, drop_ge by lia. by destruct fuel.
Qed.

(** X14.  With the chunk size left out of the configuration, or set to 0,
    the chunk size is 5000; and an array that is not empty and has no more
    elements than the chunk size is one chunk, the array itself. *)
Theorem small_input_is_one_chunk (config : Config) (docs : list A) (fuel : nat) :
  chunkSize config = None \/ chunkSize config = Some 0 ->
  docs <> [] -> (List.length docs <= 5000)%nat ->
  algoliaChunkSize config = 5000
  /\ splitIntoChunks (S fuel) docs (algoliaChunkSize config) = Some [docs].
Proof.
  intros Hsize Hne Hlen.
  assert (H : algoliaChunkSize config = 5000).
  { unfold algoliaChunkSize. by destruct Hsize as [-> | ->]. }
  split; [exact H|]. rewrite H. unfold splitIntoChunks.
  rewrite chunkLoop_single; [done|lia|done|lia].
Qed.

End BatcherMore.

(** *** The array returned, in the store *)

Section StoreMore.
Context {A : Type}.
Implicit Types (h : gmap Store.loc (list (@Store.slot A))).

(** X15.  In the store, for a positive chunk size and an input array of
    documents, [splitIntoChunks] returns a newly allocated array that holds,
    in order, one array per chunk; read back, these are the chunks of the
    list reading, and together they are the documents of the input. *)
Theorem returned_array_holds_chunks (fuel : nat) h (array : Store.loc)
    (docs : list A) (k : Z) :
  h !! array = Some (Store.Item <$> docs) ->
  0 < k -> (List.length docs <= fuel)%nat ->
  exists h' chunks,
    Store.splitIntoChunks fuel h array k = Some (h', chunks)
    /\ h !! chunks = None
    /\ splitIntoChunks fuel docs k = Some (Store.read_chunks h' chunks)
    /\ List.concat (Store.read_chunks h' chunks) = docs.
Proof.
  intros Ha Hk Hfuel.
  pose proof (splitIntoChunks_refines fuel h array docs k Ha) as Hr.
  destruct (chunkLoop_spec k fuel Hk docs [] Hfuel) as (more & Hrun & Hcat & _).
  unfold splitIntoChunks in Hr at 1. rewrite Hrun in Hr. cbn [app] in Hr.
  destruct (Store.splitIntoChunks fuel h array k) as [[h' chunks]|] eqn:E; [|done].
  injection Hr as Hr. exists h', chunks. split; [done|]. split; [|split].
  - revert E. unfold Store.splitIntoChunks, Store.splitIntoChunks_run, Store.slice0.
    destruct (Store.alloc h (Store.contents h array)) as [h1 newArrays] eqn:E1.
    destruct (Store.alloc h1 []) as [h2 c] eqn:E2.
    destruct (Store.chunkLoop fuel h2 newArrays c k) as [h3 returned].
    destruct returned; [|done]. intros [= _ <-].
    pose proof (alloc_fresh h1 []) as Hfresh. rewrite E2 in Hfresh. cbn [snd] in Hfresh.
    apply not_elem_of_dom in Hfresh.
    unfold Store.alloc in E1. injection E1 as <- _.
    destruct (h !! c) as [xs|] eqn:Hc; [|done].
    apply lookup_insert_None in Hfresh as [Hnone _]. congruence.
  - unfold splitIntoChunks. by rewrite Hrun, Hr.
  - by rewrite <- Hr.
Qed.

End StoreMore.

(** ** The Sync Orchestrator, further *)

Section OrchestratorMore.
Variable host : Host.

Lemma fetch_Some_inv (w : World) (config : Config) t (n : nat)
    (docs : list (gmap string val)) :
  fetch host w config = (t, Ok (Some (n, docs))) ->
  exists tp dp tq dq,
    Post w <> []
    /\ prepareContents host (Post w) (getBasicFields (post_fields config))
                       (getFieldsWithFilters (post_fields config)) = (tp, Ok dp)
    /\ prepareContents host (Page w) (getBasicFields (page_fields config))
                       (getFieldsWithFilters (page_fields config)) = (tq, Ok dq)
    /\ n = List.length (Post w)
    /\ docs = dp ++ dq
    /\ t = Generate :: Load :: Find "Post" :: tp ++ Find "Page" :: tq.
Proof.
  unfold fetch. intros H.
  apply bind_Ok_inv in H as (t1 & [] & t2 & [= <-] & H & ->).
  apply bind_Ok_inv in H as (t1 & [] & t3 & Hg & H & ->).
  apply bind_Ok_inv in H as (t4 & [] & t5 & [= <-] & H & ->).
  apply bind_Ok_inv in H as (t6 & [] & t7 & Hl & H & ->).
  apply bind_Ok_inv in H as (t8 & [] & t9 & [= <-] & H & ->).
  injection Hg as <-. injection Hl as <-.
  destruct (List.length (Post w) =? 0)%nat eqn:E.
  { apply bind_Ok_inv in H as (? & [] & ? & _ & H & _).
    apply bind_Ok_inv in H as (? & [] & ? & _ & H & _). discriminate H. }
  apply bind_Ok_inv in H as (tp & dp & t10 & Hp & H & ->).
  apply bind_Ok_inv in H as (t11 & [] & t12 & [= <-] & H & ->).
  apply bind_Ok_inv in H as (tq & dq & t13 & Hq & H & ->).
  injection H as <- <- <-.
  exists tp, dp, tq, dq. split.
  { intros Hnil. rewrite Hnil in E. discriminate E. }
  split; [exact Hp|]. split; [exact Hq|]. split.
  { unfold prepareContents in Hp. by apply mapArray_length in Hp. }
  split; [done|]. cbn [app]. by rewrite app_nil_r.
Qed.

Lemma fetch_Some_intro (w : World) (config : Config) tp dp tq dq :
  generate w = Ok tt -> load w = Ok tt -> Post w <> [] ->
  prepareContents host (Post w) (getBasicFields (post_fields config))
                  (getFieldsWithFilters (post_fields config)) = (tp, Ok dp) ->
  prepareContents host (Page w) (getBasicFields (page_fields config))
                  (getFieldsWithFilters (page_fields config)) = (tq, Ok dq) ->
  fetch host w config
  = (Generate :: Load :: Find "Post" :: tp ++ Find "Page" :: tq,
     Ok (Some (List.length (Post w), dp ++ dq))).
Proof.
  intros Hg Hl Hne Hp Hq. unfold fetch. rewrite Hg, Hl, Hp, Hq.
  destruct (Post w) as [|post posts] eqn:E; [done|].
  cbn [List.length Nat.eqb emit lift bind ret app].
  rewrite app_nil_r. do 3 f_equal.
  unfold prepareContents in Hp. apply mapArray_length in Hp. by rewrite Hp.
Qed.

(** X16.  When the generation of the site fails, the run is rejected with
    that failure at once, and so it is when the database fails to load:
    nothing is queried, transformed, cleared or uploaded, and the callback
    is not called. *)
Theorem generation_or_load_failure_rejects (fuel : nat) (w : World)
    (config : Config) (env : Env) (args : val) (e : exn) :
  (generate w = Err e ->
   algoliaCommand host fuel w config env args = ([Generate], Some (Err e)))
  /\ (generate w = Ok tt -> load w = Err e ->
      algoliaCommand host fuel w config env args = ([Generate; Load], Some (Err e))).
Proof.
  split.
  - intros Hg. unfold algoliaCommand, fetch. by rewrite Hg.
  - intros Hg Hl. unfold algoliaCommand, fetch. by rewrite Hg, Hl.
Qed.

(** X17.  An exception of the transformer rejects the run with that
    exception: thrown on the posts, before the pages are even queried;
    thrown on the pages, after the warnings of the posts; either way before
    the client is built, and with no request to the index and no call of
    the callback. *)
Theorem transformer_exception_rejects (fuel : nat) (w : World)
    (config : Config) (env : Env) (args : val) (e : exn) (tw : list event) :
  generate w = Ok tt -> load w = Ok tt -> Post w <> [] ->
  (prepareContents host (Post w) (getBasicFields (post_fields config))
                   (getFieldsWithFilters (post_fields config)) = (tw, Err e) ->
   algoliaCommand host fuel w config env args
   = (Generate :: Load :: Find "Post" :: tw, Some (Err e)))
  /\ (forall tp dp,
        prepareContents host (Post w) (getBasicFields (post_fields config))
                        (getFieldsWithFilters (post_fields config)) = (tp, Ok dp) ->
        prepareContents host (Page w) (getBasicFields (page_fields config))
                        (getFieldsWithFilters (page_fields config)) = (tw, Err e) ->
        algoliaCommand host fuel w config env args
        = (Generate :: Load :: Find "Post" :: tp ++ Find "Page" :: tw, Some (Err e))).
Proof.
  intros Hg Hl Hne. split.
  - intros Hp. unfold algoliaCommand, fetch. rewrite Hg, Hl, Hp.
    by destruct (Post w).
  - intros tp dp Hp Hq. unfold algoliaCommand, fetch. rewrite Hg, Hl, Hp, Hq.
    destruct (Post w); [done|].
    cbn [List.length Nat.eqb emit lift bind ret app]. by rewrite ?app_nil_r.
Qed.

(** X18.  Only a run whose promise is fulfilled has touched the index: a
    run that is rejected, or that is still in the chunking loop, has sent no
    clear request and no batch, and has handed no error to the callback. *)
Theorem unsettled_run_sent_nothing (fuel : nat) (w : World)
    (config : Config) (env : Env) (args : val) :
  let outcome := algoliaCommand host fuel w config env args in
  outcome.2 <> Some (Ok tt) ->
  clears outcome.1 = 0%nat /\ uploads outcome.1 = [] /\ failures outcome.1 = [].
Proof.
  intros outcome. subst outcome. rewrite algoliaCommand_stages.
  pose proof (fetch_quiet host w config) as Hq.
  destruct (fetch host w config) as [t [[[posts contents]|]|e]]; cbn [fst] in Hq.
  2,3: (intros _; cbn [fst];
        by rewrite (quiet_clears t Hq), (quiet_uploads t Hq), (quiet_failures t Hq)).
  destruct (splitIntoChunks fuel contents (algoliaChunkSize config)) as [chunks|].
  2: { intros _. cbn [fst].
       by rewrite (quiet_clears t Hq), (quiet_uploads t Hq), (quiet_failures t Hq). }
  cbv zeta. destruct (client w) as [u|e]; cbn [fst snd]; [done|]. intros _.
  rewrite clears_app, uploads_app, failures_app.
  by rewrite (quiet_clears t Hq), (quiet_uploads t Hq), (quiet_failures t Hq).
Qed.

(** X19.  A negative chunk size in the configuration is passed on as it is
    (only a missing one and 0 are replaced by 5000); once the documents are
    transformed, the chunking never ends: for every number of iterations the
    run is still there, and it has built no client and sent no request. *)
Theorem negative_chunk_size_hangs (w : World) (config : Config) (env : Env)
    (args : val) (k : Z) t0 (n : nat) (docs : list (gmap string val)) :
  chunkSize config = Some k -> k < 0 ->
  fetch host w config = (t0, Ok (Some (n, docs))) ->
  algoliaChunkSize config = k
  /\ forall fuel, algoliaCommand host fuel w config env args = (t0, None).
Proof.
  intros Hsize Hk Hf.
  assert (Hc : algoliaChunkSize config = k).
  { unfold algoliaChunkSize. rewrite Hsize. destruct k; [lia|done|done]. }
  split; [exact Hc|]. intros fuel. rewrite algoliaCommand_stages, Hf, Hc.
  destruct (fetch_Some_inv _ _ _ _ _ Hf) as (tp & dp & tq & dq & Hne & Hp & _ & _ & -> & _).
  unfold splitIntoChunks. rewrite chunkLoop_stuck; [done|lia|].
  unfold prepareContents in Hp. apply mapArray_length in Hp.
  destruct dp; [|done]. destruct (Post w); [done|discriminate Hp].
Qed.

Lemma fetch_Some_events (w : World) (config : Config) t0 (n : nat)
    (docs : list (gmap string val)) :
  fetch host w config = (t0, Ok (Some (n, docs))) ->
  Forall (fun e => (forall p, e <> Log (Indexed p)) /\ (forall err, e <> Callback err)) t0.
Proof.
  intros Hf.
  destruct (fetch_Some_inv _ _ _ _ _ Hf) as (tp & dp & tq & dq & _ & Hp & Hq & _ & _ & ->).
  assert (Hw : forall contents fields specs,
    Forall (fun e => (forall p, e <> Log (Indexed p)) /\ (forall err, e <> Callback err))
           (prepareContents host contents fields specs).1).
  { intros contents fields specs.
    eapply Forall_impl; [apply prepareContents_warnings|].
    intros e (r & f & title & -> & _). by split. }
  repeat (apply Forall_cons; split; [by split|]).
  apply Forall_app. split.
  - pose proof (Hw (Post w) (getBasicFields (post_fields config))
                   (getFieldsWithFilters (post_fields config))) as H.
    by rewrite Hp in H.
  - apply Forall_cons. split; [by split|].
    pose proof (Hw (Page w) (getBasicFields (page_fields config))
                   (getFieldsWithFilters (page_fields config))) as H.
    by rewrite Hq in H.
Qed.

Lemma promiseAll_fulfilled (w : World) (chunks : list (list (gmap string val))) :
  (forall content, saveObjects w content = Ok tt) -> promiseAll w chunks = Ok tt.
Proof.
  intros Hs. unfold promiseAll.
  assert (H : rejections w chunks = []).
  { unfold rejections. induction chunks as [|c cs IH]; [done|].
    cbn [omap list_omap]. by rewrite Hs. }
  by rewrite H.
Qed.

Lemma promiseAll_rejected (w : World) (chunks : list (list (gmap string val))) :
  rejections w chunks <> [] ->
  exists e, promiseAll w chunks = Err e /\ e ∈ rejections w chunks.
Proof.
  intros Hne. unfold promiseAll.
  destruct (rejections w chunks) as [|e es]; [done|].
  eexists. split; [reflexivity|].
  destruct ((e :: es) !! (winner w mod List.length (e :: es))%nat) as [e'|] eqn:E.
  - simpl. by eapply list_elem_of_lookup_2.
  - simpl. apply list_elem_of_here.
Qed.

(** X20.  A run in which everything goes well: after generation and
    loading, the posts (there is at least one) and then the pages are
    transformed; the client is built; unless clearing is skipped, one clear
    request is sent and answered; then one batch is sent per chunk, the
    batches being, in order, the documents of the posts followed by those of
    the pages; the last line logged counts the posts, not the pages; the
    promise is fulfilled, and the callback is not called at all. *)
Theorem successful_run (fuel : nat) (w : World) (config : Config) (env : Env)
    (args : val) tp dp tq dq :
  generate w = Ok tt -> load w = Ok tt -> Post w <> [] ->
  prepareContents host (Post w) (getBasicFields (post_fields config))
                  (getFieldsWithFilters (post_fields config)) = (tp, Ok dp) ->
  prepareContents host (Page w) (getBasicFields (page_fields config))
                  (getFieldsWithFilters (page_fields config)) = (tq, Ok dq) ->
  0 < algoliaChunkSize config ->
  (List.length (dp ++ dq) <= fuel)%nat ->
  client w = Ok tt ->
  truthy args && negb (truthy (member args "n")) = false \/ clearObjects w = Ok tt ->
  (forall content, saveObjects w content = Ok tt) ->
  exists chunks,
    splitIntoChunks fuel (dp ++ dq) (algoliaChunkSize config) = Some chunks
    /\ List.concat chunks = dp ++ dq
    /\ algoliaCommand host fuel w config env args
       = (Generate :: Load :: Find "Post" :: tp ++ Find "Page" :: tq
            ++ InitIndex (orElse (ALGOLIA_APP_ID env) (appId config))
                         (orElse (ALGOLIA_ADMIN_API_KEY env) (adminApiKey config))
                         (orElse (ALGOLIA_INDEX_NAME env) (indexName config))
            :: (if truthy args && negb (truthy (member args "n"))
                then [Log Clearing; ClearObjects; Log Cleared] else [])
            ++ Log Indexing :: (SaveObjects <$> chunks)
            ++ [Log (Indexed (List.length (Post w)))],
          Some (Ok tt))
    /\ Forall (fun e => forall err, e <> Callback err)
              (algoliaCommand host fuel w config env args).1.
Proof.
  intros Hg Hl Hne Hp Hq Hk Hfuel Hc Hclear Hsave.
  pose proof (fetch_Some_intro w config tp dp tq dq Hg Hl Hne Hp Hq) as Hf.
  destruct (chunkLoop_spec (algoliaChunkSize config) fuel Hk (dp ++ dq) [] Hfuel)
    as (chunks & Hrun & Hcat & _).
  cbn [app] in Hrun.
  assert (Hsplit : splitIntoChunks fuel (dp ++ dq) (algoliaChunkSize config) = Some chunks)
    by exact Hrun.
  exists chunks. split; [exact Hsplit|]. split; [exact Hcat|].
  assert (Heq : algoliaCommand host fuel w config env args
       = (Generate :: Load :: Find "Post" :: tp ++ Find "Page" :: tq
            ++ InitIndex (orElse (ALGOLIA_APP_ID env) (appId config))
                         (orElse (ALGOLIA_ADMIN_API_KEY env) (adminApiKey config))
                         (orElse (ALGOLIA_INDEX_NAME env) (indexName config))
            :: (if truthy args && negb (truthy (member args "n"))
                then [Log Clearing; ClearObjects; Log Cleared] else [])
            ++ Log Indexing :: (SaveObjects <$> chunks)
            ++ [Log (Indexed (List.length (Post w)))],
          Some (Ok tt))).
  { rewrite algoliaCommand_stages, Hf, Hsplit, Hc. cbv zeta.
    rewrite clear_trace, upload_trace, (promiseAll_fulfilled _ _ Hsave).
    cbn [fst]. f_equal.
    change (Generate :: Load :: Find "Post" :: tp ++ Find "Page" :: tq)
      with ([Generate; Load; Find "Post"] ++ tp ++ Find "Page" :: tq).
    rewrite <- !app_assoc. cbn [app]. do 5 f_equal.
    destruct (truthy args && negb (truthy (member args "n"))); [|done].
    destruct Hclear as [Hclear|Hclear]; [done|]. by rewrite Hclear. }
  split; [exact Heq|]. rewrite Heq. cbn [fst].
  pose proof (fetch_Some_events _ _ _ _ _ Hf) as Hev.
  assert (Hev' : Forall (fun e => forall err, e <> Callback err)
            (Generate :: Load :: Find "Post" :: tp ++ Find "Page" :: tq)).
  { eapply Forall_impl; [exact Hev|]. by intros e [_ ?]. }
  match goal with
  | |- Forall _ (Generate :: Load :: Find "Post" :: tp ++ Find "Page" :: tq ++ ?rest) =>
      replace (Generate :: Load :: Find "Post" :: tp ++ Find "Page" :: tq ++ rest)
        with ((Generate :: Load :: Find "Post" :: tp ++ Find "Page" :: tq) ++ rest)
        by (cbn [app]; by rewrite <- app_assoc)
  end.
  apply Forall_app. split; [exact Hev'|].
  apply Forall_cons. split; [done|]. apply Forall_app. split.
  { destruct (truthy args && negb (truthy (member args "n"))); by repeat constructor. }
  apply Forall_cons. split; [done|]. apply Forall_app. split.
  - apply Forall_fmap, Forall_forall. by intros c _ err.
  - by repeat constructor.
Qed.

(** X21.  When the clear step has been passed and some batch is rejected,
    every batch has been sent all the same (the requests go out before any
    answer is looked at), the rejection of one of them is logged and handed
    to the callback, which ends the run; the count of indexed posts is not
    logged, and the promise of the run is still fulfilled. *)
Theorem upload_failure_goes_to_callback (fuel : nat) (w : World)
    (config : Config) (env : Env) (args : val) t0 (n : nat)
    (docs : list (gmap string val)) (chunks : list (list (gmap string val))) :
  fetch host w config = (t0, Ok (Some (n, docs))) ->
  splitIntoChunks fuel docs (algoliaChunkSize config) = Some chunks ->
  client w = Ok tt ->
  truthy args && negb (truthy (member args "n")) = false \/ clearObjects w = Ok tt ->
  rejections w chunks <> [] ->
  let outcome := algoliaCommand host fuel w config env args in
  outcome.2 = Some (Ok tt)
  /\ uploads outcome.1 = chunks
  /\ (forall p, Log (Indexed p) ∉ outcome.1)
  /\ exists e,
       e ∈ rejections w chunks
       /\ failures outcome.1 = [e]
       /\ last outcome.1 = Some (Callback (Some e)).
Proof.
  intros Hf Hsplit Hc Hclear Hrej outcome. subst outcome.
  destruct (promiseAll_rejected w chunks Hrej) as (e & He & Hin).
  pose proof (fetch_quiet host w config) as Hq. rewrite Hf in Hq. cbn [fst] in Hq.
  pose proof (fetch_Some_events _ _ _ _ _ Hf) as Hev.
  rewrite algoliaCommand_stages, Hf, Hsplit, Hc. cbv zeta.
  rewrite clear_trace, upload_trace, He. cbn [fst snd].
  set (init := InitIndex _ _ _).
  set (sent := Log Indexing :: (SaveObjects <$> chunks)
                 ++ [Log (IndexError e); Callback (Some e)]).
  assert (Htail : (if truthy args && negb (truthy (member args "n"))
                   then Log Clearing :: ClearObjects
                          :: match clearObjects w with
                             | Ok _ => Log Cleared :: sent
                             | Err error => [Log (ClearError error); Callback (Some error)]
                             end
                   else sent)
                  = (if truthy args && negb (truthy (member args "n"))
                     then [Log Clearing; ClearObjects; Log Cleared] else []) ++ sent).
  { destruct (truthy args && negb (truthy (member args "n"))); [|done].
    destruct Hclear as [Hclear|Hclear]; [done|]. by rewrite Hclear. }
  rewrite Htail. clear Htail.
  set (cleared := if truthy args && negb (truthy (member args "n"))
                  then [Log Clearing; ClearObjects; Log Cleared] else []).
  assert (Hcu : uploads cleared = [] /\ failures cleared = []
                /\ forall p, Log (Indexed p) ∉ cleared).
  { subst cleared. destruct (truthy args && negb (truthy (member args "n"))).
    - split; [done|]. split; [done|]. intros p Hp.
      repeat (apply elem_of_cons in Hp as [Hp|Hp]; [discriminate Hp|]).
      by apply not_elem_of_nil in Hp.
    - split; [done|]. split; [done|]. intros p. apply not_elem_of_nil. }
  destruct Hcu as (Hcu & Hcf & Hci).
  split; [done|]. split; [|split].
  - change (t0 ++ init :: cleared ++ sent) with (t0 ++ [init] ++ cleared ++ sent).
    rewrite !uploads_app, (quiet_uploads t0 Hq), Hcu. subst sent.
    change (uploads (Log Indexing :: ?l)) with (uploads l).
    rewrite uploads_app, uploads_SaveObjects. cbn. by rewrite app_nil_r.
  - intros p Hp. apply elem_of_app in Hp as [Hp|Hp].
    { rewrite Forall_forall in Hev. by destruct (Hev _ Hp) as [H _]; destruct (H p). }
    apply elem_of_cons in Hp as [Hp|Hp]; [discriminate Hp|].
    apply elem_of_app in Hp as [Hp|Hp]; [by apply (Hci p)|].
    subst sent. apply elem_of_cons in Hp as [Hp|Hp]; [discriminate Hp|].
    apply elem_of_app in Hp as [Hp|Hp].
    + apply list_elem_of_fmap in Hp as (c & Hp & _). discriminate Hp.
    + repeat (apply elem_of_cons in Hp as [Hp|Hp]; [discriminate Hp|]).
      by apply not_elem_of_nil in Hp.
  - exists e. split; [exact Hin|]. split.
    + change (t0 ++ init :: cleared ++ sent) with (t0 ++ [init] ++ cleared ++ sent).
      rewrite !failures_app, (quiet_failures t0 Hq), Hcf. subst sent.
      change (failures (Log Indexing :: ?l)) with (failures l).
      rewrite failures_app.
      assert (Hs : failures (SaveObjects <$> chunks) = []).
      { clear. induction chunks as [|c cs IH]; [done|]. exact IH. }
      by rewrite Hs.
    + subst sent.
      change (t0 ++ init :: cleared ++ Log Indexing :: (SaveObjects <$> chunks)
                ++ [Log (IndexError e); Callback (Some e)])
        with (t0 ++ [init] ++ cleared ++ [Log Indexing] ++ (SaveObjects <$> chunks)
                ++ [Log (IndexError e)] ++ [Callback (Some e)]).
      rewrite !app_assoc. apply last_snoc.
Qed.

End OrchestratorMore.

(** ** [upperFirst] *)

Lemma toUpperCase_idempotent (c : ascii) : toUpperCase (toUpperCase c) = toUpperCase c.
Proof. by destruct c as [[] [] [] [] [] [] [] []]. Qed.

(** X22.  On a string that begins with an ASCII character (or is empty),
    [upperFirst] changes at most the first character, keeps the length, and
    capitalizing twice is capitalizing once. *)
Theorem upperFirst_idempotent (s : string) :
  (forall c rest, s = String c rest -> (nat_of_ascii c < 128)%nat) ->
  upperFirst (upperFirst s) = upperFirst s
  /\ String.length (upperFirst s) = String.length s
  /\ (forall c rest, s = String c rest -> exists c', upperFirst s = String c' rest).
Proof.
  intros _. destruct s as [|c rest]; [by repeat split|].
  split; [|split; [done|]].
  - simpl. by rewrite toUpperCase_idempotent.
  - intros c0 rest0 [= <- <-]. by eexists.
Qed.

(** ** The further properties at work *)


Lemma field_specs_partition_witness :
  let fields := ["title"; "content:strip"; "tags"; "excerpt:strip:truncate,0,200"] in
  getBasicFields fields = ["title"; "tags"]
  /\ getFieldsWithFilters fields = ["content:strip"; "excerpt:strip:truncate,0,200"]
  /\ getBasicFields fields ++ getFieldsWithFilters fields ≡ₚ fields
  /\ ("tags" ∈ getBasicFields fields <-> "tags" ∈ fields /\ hasColon "tags" = false).
Proof.
  intros fields. split; [reflexivity|]. split; [reflexivity|].
  destruct (field_specs_partition fields) as (Hbasic & _ & _ & _ & Hperm & _).
  split; [exact Hperm|exact (Hbasic "tags")].
Defined.

Lemma field_spec_split_lossless_witness :
  hasColon "title" = false
  /\ parseFieldSpec "title" = {| fieldName := "title"; filters := [] |}
  /\ String.concat ":" (split ":" "content:strip:truncate,0,200")
     = "content:strip:truncate,0,200".
Proof.
  assert (H : hasColon "title" = false) by reflexivity.
  split; [exact H|].
  destruct (field_spec_split_lossless "title") as (_ & _ & _ & Hparse).
  split; [exact (Hparse H)|].
  exact (proj1 (field_spec_split_lossless "content:strip:truncate,0,200")).
Defined.


(** A filter that does not exist, after one that does. *)
Lemma failing_step_is_fatal_witness :
  let before := [ {| name := "strip"; args := [] |} ] in
  let step := {| name := "nosuch"; args := ["1"] |} in
  hasOwnProperty helloPost (fieldName (parseFieldSpec "content:strip:nosuch,1")) = true
  /\ filters (parseFieldSpec "content:strip:nosuch,1") = before ++ step :: []
  /\ runChain plainHost before
       (get helloPost (fieldName (parseFieldSpec "content:strip:nosuch,1")))
     = Ok (VString "hi")
  /\ (name step ∉ callableNames)
  /\ (prepareContents plainHost [helloPost; aboutPage] ["title"]
                      ["content:strip:nosuch,1"]).2
     = Err TypeError.
Proof.
  intros before step.
  assert (H1 : hasOwnProperty helloPost
                 (fieldName (parseFieldSpec "content:strip:nosuch,1")) = true)
    by reflexivity.
  assert (H2 : filters (parseFieldSpec "content:strip:nosuch,1") = before ++ step :: [])
    by reflexivity.
  assert (H3 : runChain plainHost before
                 (get helloPost (fieldName (parseFieldSpec "content:strip:nosuch,1")))
               = Ok (VString "hi")) by reflexivity.
  assert (H4 : name step ∉ callableNames).
  { apply (proj1 (bool_decide_eq_false _)). vm_compute. reflexivity. }
  split; [exact H1|]. split; [exact H2|]. split; [exact H3|]. split; [exact H4|].
  destruct (failing_step_is_fatal plainHost helloPost "content:strip:nosuch,1"
              before [] step (VString "hi") H1 H2 H3 (or_introl H4)) as (_ & Hrun).
  exact (Hrun ["title"] [] [aboutPage]).
Defined.

Lemma output_keys_are_selected_witness :
  let m := prepareContents plainHost [helloPost; aboutPage] ["title"] ["content:strip"] in
  m = (m.1, Ok (returned m))
  /\ Forall (fun doc =>
               forall key, is_Some (doc !! key) ->
                 key = "objectID" \/ key ∈ ["title"] \/ key ∈ keysOf ["content:strip"])
            (returned m).
Proof.
  intros m.
  assert (H : m = (m.1, Ok (returned m))) by (vm_compute; reflexivity).
  split; [exact H|].
  exact (output_keys_are_selected plainHost _ _ _ _ _ H).
Defined.

Lemma plain_fields_are_copied_witness :
  let m := prepareContents plainHost [helloPost] ["title"; "excerpt"] ["content:strip"] in
  m = (m.1, Ok (returned m))
  /\ ("title" ∈ ["title"; "excerpt"])
  /\ ("title" ∉ ["__proto__"; "objectID"; "tags"; "categories"])
  /\ ("title" ∉ keysOf ["content:strip"])
  /\ exists doc,
       returned m !! 0%nat = Some doc /\ doc !! "title" = Some (VString "Hello").
Proof.
  intros m.
  assert (H1 : m = (m.1, Ok (returned m))) by (vm_compute; reflexivity).
  assert (H2 : "title" ∈ ["title"; "excerpt"]) by apply list_elem_of_here.
  assert (H3 : "title" ∉ ["__proto__"; "objectID"; "tags"; "categories"]).
  { apply (proj1 (bool_decide_eq_false _)). vm_compute. reflexivity. }
  assert (H4 : "title" ∉ keysOf ["content:strip"]).
  { apply (proj1 (bool_decide_eq_false _)). vm_compute. reflexivity. }
  split; [exact H1|]. split; [exact H2|]. split; [exact H3|]. split; [exact H4|].
  exact (plain_fields_are_copied plainHost [helloPost] ["title"; "excerpt"]
           ["content:strip"] m.1 (returned m) 0 helloPost "title"
           H1 eq_refl H2 H3 H4).
Defined.

Lemma transformer_is_per_record_witness :
  let m := prepareContents plainHost [helloPost; aboutPage] ["title"] ["content:strip"] in
  m = (m.1, Ok (returned m))
  /\ List.length (returned m) = 2%nat.
Proof.
  intros m.
  assert (H : m = (m.1, Ok (returned m))) by (vm_compute; reflexivity).
  split; [exact H|].
  destruct (transformer_is_per_record plainHost [helloPost; aboutPage] []
              ["title"] ["content:strip"]) as (_ & _ & Hlen).
  exact (Hlen m.1 (returned m) H).
Defined.

Lemma truncate_without_length_witness :
  ToIntegerOrInfinity plainHost (Some "2") = Finite 2
  /\ truncate plainHost (VString "hello") ["2"] = Ok (VString "llo").
Proof.
  assert (H : ToIntegerOrInfinity plainHost (Some "2") = Finite 2) by reflexivity.
  split; [exact H|].
  exact (proj1 (truncate_without_length plainHost "hello" "2" 2 H)).
Defined.

Lemma truncate_length_witness :
  ToIntegerOrInfinity plainHost (Some "3") = Finite 3
  /\ ToIntegerOrInfinity plainHost (Some "10") = Finite 10
  /\ exists r,
       truncate plainHost (VString "hello") ["3"; "10"] = Ok (VString r)
       /\ Z.of_nat (String.length r) = 2.
Proof.
  assert (H1 : ToIntegerOrInfinity plainHost (Some "3") = Finite 3) by reflexivity.
  assert (H2 : ToIntegerOrInfinity plainHost (Some "10") = Finite 10) by reflexivity.
  split; [exact H1|]. split; [exact H2|].
  destruct (truncate_length plainHost "hello" "3" "10" 3 10 H1 H2) as (r & Hr & Hlen & _).
  exists r. split; [exact Hr|exact Hlen].
Defined.

Lemma chunk_count_witness :
  0 < 3
  /\ (List.length [1; 2; 3; 4; 5; 6; 7]%nat <= 7)%nat
  /\ exists chunks,
       splitIntoChunks 7 [1; 2; 3; 4; 5; 6; 7]%nat 3 = Some chunks
       /\ Z.of_nat (List.length chunks) = (7 + 3 - 1) / 3.
Proof.
  assert (H1 : 0 < 3) by lia.
  assert (H2 : (List.length [1; 2; 3; 4; 5; 6; 7]%nat <= 7)%nat) by (simpl; lia).
  split; [exact H1|]. split; [exact H2|].
  exact (chunk_count [1; 2; 3; 4; 5; 6; 7]%nat 3 7 H1 H2).
Defined.

Lemma nonpositive_chunk_size_never_returns_witness :
  0 <= 0 /\ [1; 2]%nat <> []
  /\ forall fuel, splitIntoChunks fuel [1; 2]%nat 0 = None.
Proof.
  assert (H1 : 0 <= 0) by lia.
  assert (H2 : [1; 2]%nat <> []) by discriminate.
  split; [exact H1|]. split; [exact H2|].
  exact (proj1 (nonpositive_chunk_size_never_returns [1; 2]%nat 0 H1 H2)).
Defined.

Lemma small_input_is_one_chunk_witness :
  let config := configOf ["title"] None in
  (chunkSize config = None \/ chunkSize config = Some 0)
  /\ [1; 2]%nat <> [] /\ (List.length [1; 2]%nat <= 5000)%nat
  /\ algoliaChunkSize config = 5000
  /\ splitIntoChunks 1 [1; 2]%nat (algoliaChunkSize config) = Some [[1; 2]%nat].
Proof.
  intros config.
  assert (H1 : chunkSize config = None \/ chunkSize config = Some 0) by (left; reflexivity).
  assert (H2 : [1; 2]%nat <> []) by discriminate.
  assert (H3 : (List.length [1; 2]%nat <= 5000)%nat) by (simpl; lia).
  split; [exact H1|]. split; [exact H2|]. split; [exact H3|].
  exact (small_input_is_one_chunk config [1; 2]%nat 0 H1 H2 H3).
Defined.

Lemma returned_array_holds_chunks_witness :
  let h : gmap Store.loc (list (@Store.slot nat)) :=
    {[ 1%positive := Store.Item <$> [10; 20; 30]%nat ]} in
  h !! 1%positive = Some (Store.Item <$> [10; 20; 30]%nat)
  /\ 0 < 2 /\ (List.length [10; 20; 30]%nat <= 3)%nat
  /\ exists h' chunks,
       Store.splitIntoChunks 3 h 1%positive 2 = Some (h', chunks)
       /\ h !! chunks = None
       /\ splitIntoChunks 3 [10; 20; 30]%nat 2 = Some (Store.read_chunks h' chunks)
       /\ List.concat (Store.read_chunks h' chunks) = [10; 20; 30]%nat.
Proof.
  intros h.
  assert (H1 : h !! 1%positive = Some (Store.Item <$> [10; 20; 30]%nat)) by reflexivity.
  assert (H2 : 0 < 2) by lia.
  assert (H3 : (List.length [10; 20; 30]%nat <= 3)%nat) by (simpl; lia).
  split; [exact H1|]. split; [exact H2|]. split; [exact H3|].
  exact (returned_array_holds_chunks 3 h 1%positive [10; 20; 30]%nat 2 H1 H2 H3).
Defined.

Lemma upperFirst_idempotent_witness :
  (forall c rest, "truncate" = String c rest -> (nat_of_ascii c < 128)%nat)
  /\ upperFirst "truncate" = "Truncate"
  /\ upperFirst (upperFirst "truncate") = upperFirst "truncate".
Proof.
  assert (H : forall c rest, "truncate" = String c rest -> (nat_of_ascii c < 128)%nat).
  { intros c rest E. injection E as <- _. vm_compute. lia. }
  split; [exact H|]. split; [reflexivity|].
  exact (proj1 (upperFirst_idempotent "truncate" H)).
Defined.

(** A site whose generation fails, and one whose database does not load. *)
Lemma generation_or_load_failure_rejects_witness :
  let e := Thrown "disk full" in
  let w1 := worldOf (Err e) (Ok tt) (Ok tt) (Ok tt) (fun _ => Ok tt) [helloPost] [] in
  let w2 := worldOf (Ok tt) (Err e) (Ok tt) (Ok tt) (fun _ => Ok tt) [helloPost] [] in
  generate w1 = Err e
  /\ algoliaCommand plainHost 0 w1 blogConfig noEnv (VObject ∅) = ([Generate], Some (Err e))
  /\ generate w2 = Ok tt /\ load w2 = Err e
  /\ algoliaCommand plainHost 0 w2 blogConfig noEnv (VObject ∅)
     = ([Generate; Load], Some (Err e)).
Proof.
  intros e w1 w2.
  split; [reflexivity|]. split.
  - exact (proj1 (generation_or_load_failure_rejects plainHost 0 w1 blogConfig noEnv
                    (VObject ∅) e) eq_refl).
  - split; [reflexivity|]. split; [reflexivity|].
    exact (proj2 (generation_or_load_failure_rejects plainHost 0 w2 blogConfig noEnv
                    (VObject ∅) e) eq_refl eq_refl).
Defined.

(** Pages have no tags: with [tags] among the page fields the run is
    rejected once the posts are transformed. *)
Lemma transformer_exception_rejects_witness :
  let w := calmWorld [helloPost] [aboutPage] in
  let config := configOf ["title"; "tags"] (Some 1) in
  let posts := prepareContents plainHost (Post w) (getBasicFields (post_fields config))
                               (getFieldsWithFilters (post_fields config)) in
  generate w = Ok tt /\ load w = Ok tt /\ Post w <> []
  /\ posts = ([], Ok (returned posts))
  /\ prepareContents plainHost (Page w) (getBasicFields (page_fields config))
                     (getFieldsWithFilters (page_fields config)) = ([], Err TypeError)
  /\ algoliaCommand plainHost 5 w config noEnv (VObject ∅)
     = ([Generate; Load; Find "Post"; Find "Page"], Some (Err TypeError)).
Proof.
  intros w config posts.
  assert (H1 : Post w <> []) by discriminate.
  assert (H2 : posts = ([], Ok (returned posts))) by (vm_compute; reflexivity).
  assert (H3 : prepareContents plainHost (Page w) (getBasicFields (page_fields config))
                 (getFieldsWithFilters (page_fields config)) = ([], Err TypeError))
    by (vm_compute; reflexivity).
  split; [reflexivity|]. split; [reflexivity|]. split; [exact H1|].
  split; [exact H2|]. split; [exact H3|].
  exact (proj2 (transformer_exception_rejects plainHost 5 w config noEnv (VObject ∅)
                  TypeError [] eq_refl eq_refl H1) [] (returned posts) H2 H3).
Defined.

Lemma unsettled_run_sent_nothing_witness :
  let w := calmWorld [helloPost] [aboutPage] in
  let config := configOf ["title"; "tags"] (Some 1) in
  let outcome := algoliaCommand plainHost 5 w config noEnv (VObject ∅) in
  outcome.2 <> Some (Ok tt)
  /\ clears outcome.1 = 0%nat /\ uploads outcome.1 = [] /\ failures outcome.1 = [].
Proof.
  intros w config outcome.
  assert (H : outcome.2 <> Some (Ok tt)).
  { intros E. vm_compute in E. discriminate E. }
  split; [exact H|].
  exact (unsettled_run_sent_nothing plainHost 5 w config noEnv (VObject ∅) H).
Defined.

Lemma negative_chunk_size_hangs_witness :
  let w := calmWorld [helloPost] [aboutPage] in
  let config := configOf ["title"] (Some (-1)) in
  let fetched := fetch plainHost w config in
  let docs := match fetched.2 with Ok (Some (_, docs)) => docs | _ => [] end in
  chunkSize config = Some (-1) /\ -1 < 0
  /\ fetched = (fetched.1, Ok (Some (1%nat, docs)))
  /\ forall fuel, algoliaCommand plainHost fuel w config noEnv (VObject ∅)
                  = (fetched.1, None).
Proof.
  intros w config fetched docs.
  assert (H1 : chunkSize config = Some (-1)) by reflexivity.
  assert (H2 : -1 < 0) by lia.
  assert (H3 : fetched = (fetched.1, Ok (Some (1%nat, docs)))) by (vm_compute; reflexivity).
  split; [exact H1|]. split; [exact H2|]. split; [exact H3|].
  exact (proj2 (negative_chunk_size_hangs plainHost w config noEnv (VObject ∅) (-1)
                  fetched.1 1 docs H1 H2 H3)).
Defined.

(** One post and one page, cleared and sent in two batches. *)
Lemma successful_run_witness :
  let w := calmWorld [helloPost] [aboutPage] in
  let posts := prepareContents plainHost (Post w) (getBasicFields (post_fields blogConfig))
                               (getFieldsWithFilters (post_fields blogConfig)) in
  let pages := prepareContents plainHost (Page w) (getBasicFields (page_fields blogConfig))
                               (getFieldsWithFilters (page_fields blogConfig)) in
  posts = ([], Ok (returned posts))
  /\ pages = ([], Ok (returned pages))
  /\ 0 < algoliaChunkSize blogConfig
  /\ (List.length (returned posts ++ returned pages) <= 2)%nat
  /\ truthy (VObject ∅) && negb (truthy (member (VObject ∅) "n")) = true
  /\ clearObjects w = Ok tt
  /\ exists chunks,
       List.concat chunks = returned posts ++ returned pages
       /\ (algoliaCommand plainHost 2 w blogConfig noEnv (VObject ∅)).1
          = [Generate; Load; Find "Post"; Find "Page";
             InitIndex (Some "app") (Some "key") (Some "blog");
             Log Clearing; ClearObjects; Log Cleared; Log Indexing]
            ++ (SaveObjects <$> chunks) ++ [Log (Indexed 1)].
Proof.
  intros w posts pages.
  assert (H1 : posts = ([], Ok (returned posts))) by (vm_compute; reflexivity).
  assert (H2 : pages = ([], Ok (returned pages))) by (vm_compute; reflexivity).
  assert (H3 : 0 < algoliaChunkSize blogConfig) by (vm_compute; reflexivity).
  assert (H4 : (List.length (returned posts ++ returned pages) <= 2)%nat)
    by (vm_compute; lia).
  assert (H5 : Post w <> []) by discriminate.
  split; [exact H1|]. split; [exact H2|]. split; [exact H3|]. split; [exact H4|].
  split; [reflexivity|]. split; [reflexivity|].
  destruct (successful_run plainHost 2 w blogConfig noEnv (VObject ∅)
              [] (returned posts) [] (returned pages)
              eq_refl eq_refl H5 H1 H2 H3 H4 eq_refl (or_intror eq_refl)
              (fun _ => eq_refl))
    as (chunks & _ & Hcat & Hrun & _).
  exists chunks. split; [exact Hcat|]. rewrite Hrun. reflexivity.
Defined.

(** The index refuses every batch. *)
Lemma upload_failure_goes_to_callback_witness :
  let e := Thrown "quota" in
  let w := worldOf (Ok tt) (Ok tt) (Ok tt) (Ok tt) (fun _ => Err e)
                   [helloPost] [aboutPage] in
  let fetched := fetch plainHost w blogConfig in
  let docs := match fetched.2 with Ok (Some (_, docs)) => docs | _ => [] end in
  let chunks := (fun d => [d]) <$> docs in
  let outcome := algoliaCommand plainHost 2 w blogConfig noEnv (VObject ∅) in
  fetched = (fetched.1, Ok (Some (1%nat, docs)))
  /\ splitIntoChunks 2 docs (algoliaChunkSize blogConfig) = Some chunks
  /\ client w = Ok tt /\ clearObjects w = Ok tt
  /\ rejections w chunks <> []
  /\ outcome.2 = Some (Ok tt)
  /\ uploads outcome.1 = chunks
  /\ failures outcome.1 = [e].
Proof.
  intros e w fetched docs chunks outcome.
  assert (H1 : fetched = (fetched.1, Ok (Some (1%nat, docs)))) by (vm_compute; reflexivity).
  assert (H2 : splitIntoChunks 2 docs (algoliaChunkSize blogConfig) = Some chunks)
    by (vm_compute; reflexivity).
  assert (H3 : rejections w chunks <> []).
  { intros E. vm_compute in E. discriminate E. }
  split; [exact H1|]. split; [exact H2|]. split; [reflexivity|]. split; [reflexivity|].
  split; [exact H3|].
  destruct (upload_failure_goes_to_callback plainHost 2 w blogConfig noEnv (VObject ∅)
              fetched.1 1 docs chunks H1 H2 eq_refl (or_intror eq_refl) H3)
    as (Hres & Hup & _ & e' & Hin & Hfail & _).
  split; [exact Hres|]. split; [exact Hup|].
  refine (eq_trans Hfail _). f_equal.
  assert (Hall : Forall (fun x => x = e) (rejections w chunks))
    by (vm_compute; repeat constructor).
  rewrite Forall_forall in Hall. exact (Hall e' Hin).
Defined.
